(** * Invoice Creator: the draft model, its mutations, totals and the draft store

    A shallow embedding of [src/app/page.tsx] (the [InvoiceCreator] component)
    and the properties of its specification.

    - JavaScript numbers are IEEE 754 binary64 values: [spec_float] with
      precision 53 and [emax] 1024, the arithmetic being the Standard
      Library's [SFadd] and [SFmul].
    - The texts the component handles (entered texts, field values, the
      texts of the storage) are [string]s: code units below 256. The
      strings of a value that [JSON.parse] returns are [jsstring]s,
      sequences of 16-bit code units, since an escape can write any of
      them.
    - [localStorage] is a finite map from keys to strings with a quota.
    - Exceptions are an explicit [completion]: a value or a throw. *)

From Stdlib Require Import ZArith String Ascii List Bool Lia.
From Stdlib Require Import Floats.SpecFloat.
From stdpp Require Import base option list gmap strings.

Open Scope Z_scope.

(** ** Numbers *)

Module Num.

Definition number : Type := spec_float.

Definition prec : Z := 53.
Definition emax : Z := 1024.

Definition NaN : number := S754_nan.
Definition pos_zero : number := S754_zero false.
Definition neg_zero : number := S754_zero true.
Definition Infinity : number := S754_infinity false.

(** [x + y] and [x * y] of the language. *)
Definition add (x y : number) : number := SFadd prec emax x y.
Definition mul (x y : number) : number := SFmul prec emax x y.

(** A well-formed binary64 value. *)
Definition valid (x : number) : bool := valid_binary prec emax x.

Definition is_finite (x : number) : bool :=
  match x with
  | S754_zero _ | S754_finite _ _ _ => true
  | _ => false
  end.

Definition is_zero (x : number) : bool :=
  match x with S754_zero _ => true | _ => false end.

(** ToBoolean on a number: [+0], [-0] and [NaN] are falsy. *)
Definition truthy (x : number) : bool :=
  match x with
  | S754_zero _ | S754_nan => false
  | _ => true
  end.

(** [x || d] on numbers. *)
Definition or_else (x d : number) : number := if truthy x then x else d.

Definition number_eqb (x y : number) : bool :=
  match x, y with
  | S754_zero a, S754_zero b => Bool.eqb a b
  | S754_infinity a, S754_infinity b => Bool.eqb a b
  | S754_nan, S754_nan => true
  | S754_finite a m e, S754_finite b m' e' =>
      Bool.eqb a b && Pos.eqb m m' && Z.eqb e e'
  | _, _ => false
  end.

(** *** Rounding a positive rational to the nearest binary64 value

    [round_ratio sign a b] is the binary64 value nearest to [a / b]
    (ties to even), for positive [a] and [b]. *)

Definition pow2 (n : Z) : Z := 2 ^ Z.max 0 n.

(** [a / b] divided by [2 ^ E], as a fraction of integers. *)
Definition scaled_num (a E : Z) : Z := a * pow2 (- E).
Definition scaled_den (b E : Z) : Z := b * pow2 E.

(** The integer [L] with [2 ^ L <= a / b < 2 ^ (L + 1)]. *)
Definition ilog2_ratio (a b : Z) : Z :=
  let l := Z.log2 a - Z.log2 b in
  if scaled_den b l <=? scaled_num a l then l else l - 1.

Definition round_half_even (n d : Z) : Z :=
  let q := n / d in
  match 2 * (n mod d) ?= d with
  | Lt => q
  | Gt => q + 1
  | Eq => if Z.even q then q else q + 1
  end.

Definition round_ratio (sign : bool) (a b : Z) : number :=
  let E := Z.max (ilog2_ratio a b - 52) (-1074) in
  let M := round_half_even (scaled_num a E) (scaled_den b E) in
  let '(M', E') := if M =? 2 ^ 53 then (2 ^ 52, E + 1) else (M, E) in
  match M' with
  | Zpos m => if E' <=? 971 then S754_finite sign m E' else S754_infinity sign
  | _ => S754_zero sign
  end.

(** The Number value of the decimal [D * 10 ^ t] with [0 <= D]. *)
Definition of_decimal (sign : bool) (D t : Z) : number :=
  if D =? 0 then S754_zero sign
  else if 0 <=? t then round_ratio sign (D * 10 ^ t) 1
  else round_ratio sign D (10 ^ (- t)).

(** The Number value of an integer. *)
Definition of_Z (z : Z) : number :=
  match z with
  | Z0 => pos_zero
  | Zpos p => round_ratio false (Zpos p) 1
  | Zneg p => round_ratio true (Zpos p) 1
  end.

End Num.

Export Num.

(** ** Decimal digits *)

Module Digits.

Definition digit_char (d : Z) : ascii := ascii_of_nat (48 + Z.to_nat d).

Definition is_digit (c : ascii) : bool :=
  let n := nat_of_ascii c in (48 <=? n)%nat && (n <=? 57)%nat.

Definition digit_val (c : ascii) : Z := Z.of_nat (nat_of_ascii c) - 48.

Fixpoint to_digits_aux (fuel : nat) (n : Z) (acc : list ascii) : list ascii :=
  match fuel with
  | O => digit_char (n mod 10) :: acc
  | S fuel' =>
      if n <? 10 then digit_char n :: acc
      else to_digits_aux fuel' (n / 10) (digit_char (n mod 10) :: acc)
  end.

(** The decimal digits of a non-negative integer, most significant first,
    without leading zeros ([0] is the single digit 0). *)
Definition to_digits (n : Z) : list ascii :=
  to_digits_aux (Z.to_nat (Z.log2 n)) n [].

(** The value of a digit sequence, extending [acc] on the left. *)
Definition digits_value (acc : Z) (ds : list ascii) : Z :=
  fold_left (fun a c => 10 * a + digit_val c) ds acc.

Definition ndigits (n : Z) : Z := Z.of_nat (length (to_digits n)).

Definition zeros (n : Z) : list ascii := repeat "0"%char (Z.to_nat n).

End Digits.

Export Digits.

(** ** Number::toString and the numeric literals *)

Module NumberToString.

(** The exact value of a positive finite binary64 [m * 2 ^ e], as a
    fraction. *)
Definition exact_num (m : positive) (e : Z) : Z :=
  if 0 <=? e then Zpos m * 2 ^ e else Zpos m.
Definition exact_den (e : Z) : Z :=
  if 0 <=? e then 1 else 2 ^ (- e).

(** The least [j >= 1] with [a * 10 ^ j >= b], for [0 < a < b]. *)
Fixpoint leading_zeros (fuel : nat) (a b : Z) (j : Z) : Z :=
  match fuel with
  | O => j
  | S fuel' => if b <=? a * 10 ^ j then j else leading_zeros fuel' a b (j + 1)
  end.

(** The integer [n] with [10 ^ (n - 1) <= a / b < 10 ^ n]. *)
Definition decimal_exponent (a b : Z) : Z :=
  if b <=? a then ndigits (a / b)
  else 1 - leading_zeros (Z.to_nat (Z.log2 b)) a b 1.

(** The two [k]-digit decimals [s * 10 ^ t] around [a / b], and which of
    them is the nearer one: [(lo, t, 2 * remainder ?= divisor)]. *)
Definition candidates (a b n k : Z) : Z * Z * comparison :=
  let t := n - k in
  let num := if t <=? 0 then a * 10 ^ (- t) else a in
  let den := if t <=? 0 then b else b * 10 ^ t in
  (num / den, t, 2 * (num mod den) ?= den).

Definition normalise (k s t : Z) : Z * Z :=
  if s =? 10 ^ k then (10 ^ (k - 1), t + 1) else (s, t).

(** A [k]-digit decimal [s * 10 ^ t] whose Number value is [x], the one
    nearest to the exact value [a / b] of [x] when there are two. *)
Definition shortest_at (x : number) (a b n k : Z) : option (Z * Z) :=
  let '(lo, t, side) := candidates a b n k in
  let ok c := number_eqb (of_decimal false (fst c) (snd c)) x
              && (ndigits (fst c) =? k) in
  let l := (lo, t) in
  let h := normalise k (lo + 1) t in
  match ok l, ok h with
  | true, true =>
      match side with
      | Lt => Some l
      | Gt => Some h
      | Eq => if Z.even lo then Some l else Some h
      end
  | true, false => Some l
  | false, true => Some h
  | false, false => None
  end.

Fixpoint search (fuel : nat) (x : number) (a b n k : Z) (last : Z * Z)
  : Z * Z :=
  match shortest_at x a b n k with
  | Some r => r
  | None =>
      match fuel with
      | O => last
      | S fuel' => search fuel' x a b n (k + 1) last
      end
  end.

(** The exact decimal expansion of [m * 2 ^ e]: digits and the exponent of
    the last one. *)
Definition exact_decimal (m : positive) (e : Z) : Z * Z :=
  if 0 <=? e then (Zpos m * 2 ^ e, 0) else (Zpos m * 5 ^ (- e), e).

(** The digits [s] and exponent [t] of the shortest decimal [s * 10 ^ t]
    whose Number value is the positive finite [m * 2 ^ e]: the first [k]
    from 1 to 17 that has one (17 significant digits tell any two binary64
    values apart), the exact expansion closing the search. *)
Definition shortest_decimal (m : positive) (e : Z) : Z * Z :=
  let a := exact_num m e in
  let b := exact_den e in
  search 16 (S754_finite false m e) a b (decimal_exponent a b) 1
         (exact_decimal m e).

(** Steps 6 to 10 of Number::toString for radix 10, on the digits [ds] of
    [s] and [n = k + t]. *)
Definition format_digits (ds : list ascii) (n : Z) : list ascii :=
  let k := Z.of_nat (length ds) in
  if (k <=? n) && (n <=? 21) then ds ++ zeros (n - k)
  else if (0 <? n) && (n <=? 21) then
    take (Z.to_nat n) ds ++ "."%char :: drop (Z.to_nat n) ds
  else if (-6 <? n) && (n <=? 0) then
    "0"%char :: "."%char :: zeros (- n) ++ ds
  else
    let e := n - 1 in
    let exp := "e"%char :: (if 0 <=? e then "+"%char else "-"%char)
                        :: to_digits (Z.abs e) in
    match ds with
    | [d] => d :: exp
    | d :: rest => d :: "."%char :: rest ++ exp
    | [] => exp
    end.

Definition Number_toString_chars (x : number) : list ascii :=
  match x with
  | S754_nan => list_ascii_of_string "NaN"
  | S754_zero _ => list_ascii_of_string "0"
  | S754_infinity s =>
      (if s then ["-"%char] else []) ++ list_ascii_of_string "Infinity"
  | S754_finite s m e =>
      let '(d, t) := shortest_decimal m e in
      let ds := to_digits d in
      (if s then ["-"%char] else [])
        ++ format_digits ds (Z.of_nat (length ds) + t)
  end.

(** [x.toString()] on a number. *)
Definition Number_toString (x : number) : string :=
  string_of_list_ascii (Number_toString_chars x).

End NumberToString.

Export NumberToString.

(** ** The invoice model *)

(** [interface InvoiceItem]. *)
Record InvoiceItem : Type := {
  id : string;
  description : string;
  quantity : number;
  price : number
}.

(** [interface InvoiceData]; [signature] is [string | null]. *)
Record InvoiceData : Type := {
  paperColor : string;
  signature : option string;
  invoiceNumber : string;
  date : string;
  fromName : string;
  fromAddress : string;
  toName : string;
  toAddress : string;
  items : list InvoiceItem;
  note : string
}.

Definition STORAGE_KEY : string := "invoice-creator-data".

(** The [value] members of [PAPER_COLORS], in order. *)
Definition PAPER_COLORS : list (string * string) :=
  [ ("Cream", "oklch(0.96 0.01 85)");
    ("White", "oklch(0.99 0 0)");
    ("Mint", "oklch(0.96 0.02 160)");
    ("Peach", "oklch(0.96 0.02 40)");
    ("Blue", "oklch(0.96 0.02 240)") ]%string.

Definition one : number := of_Z 1.

(** [{ id, description: "", quantity: 1, price: 0 }]. *)
Definition blank_item (new_id : string) : InvoiceItem :=
  {| id := new_id; description := ""; quantity := one; price := pos_zero |}.

(** [Date.now()] when the clock reads the time value [t], in milliseconds
    since the epoch. *)
Definition Date_now (t : Z) : number := of_Z t.

(** [addItem], the clock reading [t] being an input. *)
Definition addItem (t : Z) (items : list InvoiceItem) : list InvoiceItem :=
  items ++ [blank_item (Number_toString (Date_now t))].

(** [removeItem]. *)
Definition removeItem (id0 : string) (items : list InvoiceItem)
  : list InvoiceItem :=
  if (1 <? length items)%nat
  then List.filter (fun item => negb (String.eqb (id item) id0)) items
  else items.

(** [keyof InvoiceItem], and the type of the values of each key. *)
Inductive field : Type := f_id | f_description | f_quantity | f_price.

Definition field_type (f : field) : Type :=
  match f with
  | f_id | f_description => string
  | f_quantity | f_price => number
  end.

Definition get_field (f : field) (item : InvoiceItem) : field_type f :=
  match f with
  | f_id => id item
  | f_description => description item
  | f_quantity => quantity item
  | f_price => price item
  end.

(** [{ ...item, [field]: value }]. *)
Definition set_field (f : field) : field_type f -> InvoiceItem -> InvoiceItem :=
  match f with
  | f_id => fun v item =>
      {| id := v; description := description item;
         quantity := quantity item; price := price item |}
  | f_description => fun v item =>
      {| id := id item; description := v;
         quantity := quantity item; price := price item |}
  | f_quantity => fun v item =>
      {| id := id item; description := description item;
         quantity := v; price := price item |}
  | f_price => fun v item =>
      {| id := id item; description := description item;
         quantity := quantity item; price := v |}
  end.

(** [updateItem]. *)
Definition updateItem (id0 : string) (f : field) (v : field_type f)
    (items : list InvoiceItem) : list InvoiceItem :=
  map (fun item => if String.eqb (id item) id0 then set_field f v item
                   else item) items.

(** The line total of a row: [item.quantity * item.price]. *)
Definition lineTotal (item : InvoiceItem) : number :=
  mul (quantity item) (price item).

(** [items.reduce((sum, item) => sum + item.quantity * item.price, 0)]. *)
Definition subtotal (items : list InvoiceItem) : number :=
  fold_left (fun sum item => add sum (mul (quantity item) (price item)))
            items pos_zero.

(** A call of one of the two list operations. *)
Inductive call : Type :=
  | AddItem (t : Z)
  | RemoveItem (id0 : string).

Definition step (items : list InvoiceItem) (c : call) : list InvoiceItem :=
  match c with
  | AddItem t => addItem t items
  | RemoveItem id0 => removeItem id0 items
  end.

(** The item list after a sequence of calls. *)
Definition run (calls : list call) (items : list InvoiceItem)
  : list InvoiceItem :=
  fold_left step calls items.

(** ** [parseInt], [parseFloat] and the two numeric inputs *)

Module Parse.

(** WhiteSpace and LineTerminator code units below 256. *)
Definition is_white (c : ascii) : bool :=
  let n := nat_of_ascii c in
  ((9 <=? n) && (n <=? 13) || (n =? 32) || (n =? 160))%nat.

Fixpoint trim_start (s : list ascii) : list ascii :=
  match s with
  | c :: s' => if is_white c then trim_start s' else s
  | [] => []
  end.

(** The longest prefix of characters satisfying [p], and the rest. *)
Fixpoint span (p : ascii -> bool) (s : list ascii)
  : list ascii * list ascii :=
  match s with
  | c :: s' =>
      if p c then let '(a, b) := span p s' in (c :: a, b) else ([], s)
  | [] => ([], [])
  end.

(** [s] without its first character, when that is [c]. *)
Definition strip (c : ascii) (s : list ascii) : option (list ascii) :=
  match s with
  | x :: s' => if (x =? c)%char then Some s' else None
  | [] => None
  end.

(** A leading sign: [true] for a minus. *)
Definition take_sign (s : list ascii) : bool * list ascii :=
  match strip "-" s with
  | Some s' => (true, s')
  | None =>
      match strip "+" s with
      | Some s' => (false, s')
      | None => (false, s)
      end
  end.

Definition starts_with (p s : list ascii) : bool :=
  bool_decide (take (length p) s = p).

Definition hex_val (c : ascii) : option Z :=
  let n := Z.of_nat (nat_of_ascii c) in
  if (48 <=? n) && (n <=? 57) then Some (n - 48)
  else if (97 <=? n) && (n <=? 102) then Some (n - 87)
  else if (65 <=? n) && (n <=? 70) then Some (n - 55)
  else None.

Definition is_hex (c : ascii) : bool :=
  match hex_val c with Some _ => true | None => false end.

Definition hex_value (ds : list ascii) : Z :=
  fold_left (fun a c => 16 * a + default 0 (hex_val c)) ds 0.

(** [parseInt(string)] with the radix left out. *)
Definition parseInt_chars (input : list ascii) : number :=
  let '(neg, str) := take_sign (trim_start input) in
  let '(hex, str) :=
    if starts_with ["0"; "x"]%char str || starts_with ["0"; "X"]%char str
    then (true, drop 2 str)
    else (false, str) in
  let '(zs, _) := span (if hex then is_hex else is_digit) str in
  match zs with
  | [] => NaN
  | _ =>
      let mathInt := if hex then hex_value zs else digits_value 0 zs in
      if mathInt =? 0 then S754_zero neg
      else round_ratio neg mathInt 1
  end.

Definition parseInt (input : string) : number :=
  parseInt_chars (list_ascii_of_string input).

(** An ExponentPart at the head of [s]: its value and what follows. *)
Definition scan_exponent (s : list ascii) : option (Z * list ascii) :=
  match s with
  | c :: s1 =>
      if (c =? "e")%char || (c =? "E")%char then
        let '(neg, s2) := take_sign s1 in
        let '(ds, rest) := span is_digit s2 in
        match ds with
        | [] => None
        | _ => Some (if neg then - digits_value 0 ds else digits_value 0 ds,
                     rest)
        end
      else None
  | [] => None
  end.

(** The longest prefix that is a StrUnsignedDecimalLiteral other than
    [Infinity], as the decimal [D * 10 ^ t]. *)
Definition scan_decimal (s : list ascii) : option (Z * Z) :=
  let '(ip, s1) := span is_digit s in
  let '(fp, s2) :=
    match strip "." s1 with
    | Some s1' => span is_digit s1'
    | None => ([], s1)
    end in
  match ip, fp with
  | [], [] => None
  | _, _ =>
      let D := digits_value (digits_value 0 ip) fp in
      let x := match scan_exponent s2 with
               | Some (x, _) => x
               | None => 0
               end in
      Some (D, x - Z.of_nat (length fp))
  end.

(** [parseFloat(string)]. *)
Definition parseFloat_chars (input : list ascii) : number :=
  let '(neg, str) := take_sign (trim_start input) in
  if starts_with (list_ascii_of_string "Infinity") str then S754_infinity neg
  else
    match scan_decimal str with
    | Some (D, t) => of_decimal neg D t
    | None => NaN
    end.

Definition parseFloat (input : string) : number :=
  parseFloat_chars (list_ascii_of_string input).

End Parse.

Export Parse.

(** The [onChange] handler of the quantity input of the row of [item]:
    [updateItem(item.id, "quantity", Number.parseInt(e.target.value) || 1)]. *)
Definition onQuantityChange (item : InvoiceItem) (text : string)
    (items : list InvoiceItem) : list InvoiceItem :=
  updateItem (id item) f_quantity (or_else (parseInt text) one) items.

(** The [onChange] handler of the price input of the row of [item]:
    [updateItem(item.id, "price", Number.parseFloat(e.target.value) || 0)]. *)
Definition onPriceChange (item : InvoiceItem) (text : string)
    (items : list InvoiceItem) : list InvoiceItem :=
  updateItem (id item) f_price (or_else (parseFloat text) pos_zero) items.

(** The [onChange] handler of the description of the row of [item]. *)
Definition onDescriptionChange (item : InvoiceItem) (text : string)
    (items : list InvoiceItem) : list InvoiceItem :=
  updateItem (id item) f_description text items.

(** ** Rendering the totals *)

(** [x.toFixed(f)] for a small non-negative [f]. *)
Definition toFixed (x : number) (f : Z) : string :=
  match x with
  | S754_finite s m e =>
      let a := exact_num m e in
      let b := exact_den e in
      if 10 ^ 21 * b <=? a then Number_toString x
      else
        (* the integer nearest to [x * 10 ^ f], the larger one on a tie *)
        let n := (2 * a * 10 ^ f + b) / (2 * b) in
        let ds := to_digits n in
        let ds := zeros (f + 1 - Z.of_nat (length ds)) ++ ds in
        let k := length ds in
        let text :=
          if f =? 0 then ds
          else take (k - Z.to_nat f) ds ++ "."%char :: drop (k - Z.to_nat f) ds
        in
        string_of_list_ascii ((if s then ["-"%char] else []) ++ text)
  | S754_zero _ =>
      string_of_list_ascii
        (if f =? 0 then ["0"%char] else "0"%char :: "."%char :: zeros f)
  | _ => Number_toString x
  end.

(** The two amounts of the totals block: [${subtotal.toFixed(2)}] after
    SUBTOTAL and [${subtotal.toFixed(2)}] after TOTAL. *)
Record totals : Type := { subtotal_text : string; total_text : string }.

Definition render_totals (items : list InvoiceItem) : totals :=
  {| subtotal_text := "$" ++ toFixed (subtotal items) 2;
     total_text := "$" ++ toFixed (subtotal items) 2 |}.

(** The amount of a row: [${(item.quantity * item.price).toFixed(2)}]. *)
Definition render_lineTotal (item : InvoiceItem) : string :=
  "$" ++ toFixed (mul (quantity item) (price item)) 2.

(** ** Values, exceptions and JSON *)

(** A String value as the sequence of its UTF-16 code units. *)
Definition jsstring : Type := list N.

(** The code units of a text of the component: the texts it builds and
    the texts of the storage have code units below 256, one character
    each. *)
Definition units_of (s : string) : jsstring :=
  map N_of_ascii (list_ascii_of_string s).

Fixpoint jsstring_eqb (a b : jsstring) : bool :=
  match a, b with
  | [], [] => true
  | x :: a', y :: b' => (x =? y)%N && jsstring_eqb a' b'
  | _, _ => false
  end.

(** The values the component stores and reads back, over the type [str]
    of their strings: [string] for the values the component builds and
    hands to [JSON.stringify], [jsstring] for the values [JSON.parse]
    returns, in which an escape may write any code unit. A property list
    is in creation order (no key of [InvoiceData] is an array index). *)
Unset Elimination Schemes.
Inductive jsval (str : Type) : Type :=
  | VUndefined
  | VNull
  | VBool (b : bool)
  | VNumber (n : number)
  | VString (s : str)
  | VArray (elems : list (jsval str))
  | VObject (props : list (str * jsval str)).
Set Elimination Schemes.

Arguments VUndefined {str}.
Arguments VNull {str}.
Arguments VBool {str} b.
Arguments VNumber {str} n.
Arguments VString {str} s.
Arguments VArray {str} elems.
Arguments VObject {str} props.

(** A value the component builds, as a value over code units. *)
Fixpoint widen (v : jsval string) : jsval jsstring :=
  match v with
  | VUndefined => VUndefined
  | VNull => VNull
  | VBool b => VBool b
  | VNumber n => VNumber n
  | VString s => VString (units_of s)
  | VArray elems => VArray (map widen elems)
  | VObject props =>
      VObject (map (fun kv => (units_of (fst kv), widen (snd kv))) props)
  end.

Inductive exn : Type :=
  | SyntaxError
  | QuotaExceededError
  | SecurityError.

(** The outcome of an evaluation that may throw. *)
Inductive completion (A : Type) : Type :=
  | Normal (a : A)
  | Throw (e : exn).

Arguments Normal {A} a.
Arguments Throw {A} e.

#[export] Instance completion_ret : MRet completion := @Normal.

#[export] Instance completion_bind : MBind completion :=
  fun A B k c =>
    match c with
    | Normal a => k a
    | Throw e => Throw e
    end.

(** [try { body } catch (error) { handler }]. *)
Definition try_catch {A : Type} (body : completion A)
    (handler : exn -> completion A) : completion A :=
  match body with
  | Normal a => Normal a
  | Throw e => handler e
  end.

(** ToBoolean. *)
Definition to_boolean (v : jsval jsstring) : bool :=
  match v with
  | VUndefined | VNull => false
  | VBool b => b
  | VNumber n => truthy n
  | VString s => negb (jsstring_eqb s [])
  | VArray _ | VObject _ => true
  end.

Fixpoint lookup_prop (k : jsstring) (props : list (jsstring * jsval jsstring))
  : option (jsval jsstring) :=
  match props with
  | (k', v) :: rest =>
      if jsstring_eqb k' k then Some v else lookup_prop k rest
  | [] => None
  end.

(** [v.k] for one of the keys of [InvoiceData], on a value that is neither
    [undefined] nor [null]. *)
Definition get_prop (v : jsval jsstring) (k : string) : jsval jsstring :=
  match v with
  | VObject props => default VUndefined (lookup_prop (units_of k) props)
  | _ => VUndefined
  end.

(** CreateDataProperty: a key that is already there keeps its place. *)
Fixpoint set_prop (k : jsstring) (v : jsval jsstring)
    (props : list (jsstring * jsval jsstring))
  : list (jsstring * jsval jsstring) :=
  match props with
  | (k', v') :: rest =>
      if jsstring_eqb k' k then (k', v) :: rest
      else (k', v') :: set_prop k v rest
  | [] => [(k, v)]
  end.

Module JSON.

(** The quotation mark. *)
Definition quote_mark : ascii := ascii_of_nat 34.

Definition hex_char (d : Z) : ascii :=
  if d <? 10 then ascii_of_nat (48 + Z.to_nat d)
  else ascii_of_nat (87 + Z.to_nat d).

(** QuoteJSONString, one code unit. *)
Definition quote_char (c : ascii) : list ascii :=
  let n := Z.of_nat (nat_of_ascii c) in
  if n =? 8 then ["\"; "b"]%char
  else if n =? 9 then ["\"; "t"]%char
  else if n =? 10 then ["\"; "n"]%char
  else if n =? 12 then ["\"; "f"]%char
  else if n =? 13 then ["\"; "r"]%char
  else if n =? 34 then ["\"%char; quote_mark]
  else if n =? 92 then ["\"; "\"]%char
  else if n <? 32 then
    ["\"; "u"; "0"; "0"]%char ++ [hex_char (n / 16); hex_char (n mod 16)]
  else [c].

Definition quote_chars (s : list ascii) : list ascii :=
  quote_mark :: concat (map quote_char s) ++ [quote_mark].

Definition quote (s : string) : list ascii :=
  quote_chars (list_ascii_of_string s).

(** [a, b, c] joined with commas. *)
Fixpoint join (parts : list (list ascii)) : list ascii :=
  match parts with
  | [] => []
  | [p] => p
  | p :: rest => p ++ ","%char :: join rest
  end.

(** SerializeJSONProperty without a replacer or an indent: [None] is
    [undefined]. An array element without a serialization reads [null]; a
    property without one is left out. *)
Fixpoint serialize (v : jsval string) : option (list ascii) :=
  match v with
  | VUndefined => None
  | VNull => Some (list_ascii_of_string "null")
  | VBool true => Some (list_ascii_of_string "true")
  | VBool false => Some (list_ascii_of_string "false")
  | VNumber n =>
      Some (if is_finite n then Number_toString_chars n
            else list_ascii_of_string "null")
  | VString s => Some (quote s)
  | VArray elems =>
      Some ("["%char ::
            join (map (fun e => default (list_ascii_of_string "null")
                                        (serialize e)) elems)
            ++ ["]"%char])
  | VObject props =>
      Some ("{"%char ::
            join (omap (fun kv => match serialize (snd kv) with
                                  | Some s => Some (quote (fst kv)
                                                    ++ ":"%char :: s)
                                  | None => None
                                  end) props)
            ++ ["}"%char])
  end.

(** [JSON.stringify(v)]; [None] is [undefined]. *)
Definition stringify (v : jsval string) : option string :=
  string_of_list_ascii <$> serialize v.

(** JSON white space: tab, line feed, carriage return, space. *)
Definition is_ws (c : ascii) : bool :=
  let n := nat_of_ascii c in
  ((n =? 9) || (n =? 10) || (n =? 13) || (n =? 32))%nat.

Fixpoint skip_ws (s : list ascii) : list ascii :=
  match s with
  | c :: s' => if is_ws c then skip_ws s' else s
  | [] => []
  end.

(** Four hexadecimal digits. *)
Definition parse_hex4 (s : list ascii) : option (Z * list ascii) :=
  match s with
  | a :: b :: c :: d :: rest =>
      match hex_val a, hex_val b, hex_val c, hex_val d with
      | Some x, Some y, Some z, Some w =>
          Some (((x * 16 + y) * 16 + z) * 16 + w, rest)
      | _, _, _, _ => None
      end
  | _ => None
  end.

(** The code units of a JSON string after its opening quote, up to the
    closing one: a character of the text stands for itself and an escape
    for the code unit it names, whichever it is. *)
Fixpoint parse_string_body (fuel : nat) (s : list ascii)
  : option (jsstring * list ascii) :=
  match fuel with
  | O => None
  | S fuel' =>
      match s with
      | [] => None
      | c :: s1 =>
          if (c =? quote_mark)%char then Some ([], s1)
          else if (c =? "\")%char then
            match s1 with
            | [] => None
            | e :: s2 =>
                let simple (x : N) :=
                  '(cs, rest) ← parse_string_body fuel' s2; Some (x :: cs, rest)
                in
                if (e =? quote_mark)%char then simple 34%N
                else if (e =? "\")%char then simple 92%N
                else if (e =? "/")%char then simple 47%N
                else if (e =? "b")%char then simple 8%N
                else if (e =? "f")%char then simple 12%N
                else if (e =? "n")%char then simple 10%N
                else if (e =? "r")%char then simple 13%N
                else if (e =? "t")%char then simple 9%N
                else if (e =? "u")%char then
                  '(n, s3) ← parse_hex4 s2;
                  '(cs, rest) ← parse_string_body fuel' s3;
                  Some (Z.to_N n :: cs, rest)
                else None
            end
          else if (nat_of_ascii c <? 32)%nat then None
          else
            '(cs, rest) ← parse_string_body fuel' s1;
            Some (N_of_ascii c :: cs, rest)
      end
  end.

(** A JSON number at the head of [s]: its sign and its decimal
    [D * 10 ^ t]. *)
Definition parse_number (s : list ascii) : option (number * list ascii) :=
  let '(neg, s0) := match strip "-" s with
                    | Some s' => (true, s')
                    | None => (false, s)
                    end in
  let '(ip, s1) := span is_digit s0 in
  match ip with
  | [] => None
  | d :: ip' =>
      if (d =? "0")%char && negb (bool_decide (ip' = [])) then None
      else
        '(fp, s2) ← match strip "." s1 with
                     | Some s1' =>
                         let '(fp, s2) := span is_digit s1' in
                         match fp with [] => None | _ => Some (fp, s2) end
                     | None => Some ([], s1)
                     end;
        '(x, s3) ← match s2 with
                    | c :: _ =>
                        if (c =? "e")%char || (c =? "E")%char
                        then scan_exponent s2
                        else Some (0, s2)
                    | [] => Some (0, s2)
                    end;
        Some (of_decimal neg (digits_value (digits_value 0 ip) fp)
                         (x - Z.of_nat (length fp)), s3)
  end.

(** The elements of an array after the first, up to the closing bracket. *)
Fixpoint parse_elements
    (pv : list ascii -> option (jsval jsstring * list ascii))
    (fuel : nat) (s : list ascii)
  : option (list (jsval jsstring) * list ascii) :=
  match fuel with
  | O => None
  | S fuel' =>
      match skip_ws s with
      | "]"%char :: rest => Some ([], rest)
      | ","%char :: s1 =>
          '(v, s2) ← pv s1;
          '(vs, rest) ← parse_elements pv fuel' s2;
          Some (v :: vs, rest)
      | _ => None
      end
  end.

Definition parse_member
    (pv : list ascii -> option (jsval jsstring * list ascii))
    (s : list ascii) : option (jsstring * jsval jsstring * list ascii) :=
  s1 ← strip quote_mark (skip_ws s);
  '(k, s2) ← parse_string_body (length s1) s1;
  s3 ← strip ":" (skip_ws s2);
  '(v, s4) ← pv s3;
  Some (k, v, s4).

(** The members of an object after the first, up to the closing brace,
    added to [acc]. *)
Fixpoint parse_members
    (pv : list ascii -> option (jsval jsstring * list ascii))
    (fuel : nat) (acc : list (jsstring * jsval jsstring)) (s : list ascii)
  : option (list (jsstring * jsval jsstring) * list ascii) :=
  match fuel with
  | O => None
  | S fuel' =>
      match skip_ws s with
      | "}"%char :: rest => Some (acc, rest)
      | ","%char :: s1 =>
          '(k, v, s2) ← parse_member pv s1;
          parse_members pv fuel' (set_prop k v acc) s2
      | _ => None
      end
  end.

Definition literal (word : string) (v : jsval jsstring) (s : list ascii)
  : option (jsval jsstring * list ascii) :=
  let w := list_ascii_of_string word in
  if starts_with w s then Some (v, drop (length w) s) else None.

(** A JSON value at the head of [s], white space before it allowed. *)
Fixpoint parse_value (fuel : nat) (s : list ascii)
  : option (jsval jsstring * list ascii) :=
  match fuel with
  | O => None
  | S fuel' =>
      match skip_ws s with
      | [] => None
      | c :: s1 =>
          if (c =? "{")%char then
            match skip_ws s1 with
            | "}"%char :: rest => Some (VObject [], rest)
            | _ =>
                '(k, v, s2) ← parse_member (parse_value fuel') s1;
                '(ps, rest) ← parse_members (parse_value fuel') fuel'
                                 [(k, v)] s2;
                Some (VObject ps, rest)
            end
          else if (c =? "[")%char then
            match skip_ws s1 with
            | "]"%char :: rest => Some (VArray [], rest)
            | _ =>
                '(v, s2) ← parse_value fuel' s1;
                '(vs, rest) ← parse_elements (parse_value fuel') fuel' s2;
                Some (VArray (v :: vs), rest)
            end
          else if (c =? quote_mark)%char then
            '(cs, rest) ← parse_string_body (length s1) s1;
            Some (VString cs, rest)
          else if (c =? "t")%char then literal "true" (VBool true) (c :: s1)
          else if (c =? "f")%char then literal "false" (VBool false) (c :: s1)
          else if (c =? "n")%char then literal "null" VNull (c :: s1)
          else
            '(n, rest) ← parse_number (c :: s1); Some (VNumber n, rest)
      end
  end.

(** [JSON.parse(text)]: the whole text is one value, or a SyntaxError. *)
Definition parse (text : string) : completion (jsval jsstring) :=
  let s := list_ascii_of_string text in
  match parse_value (length s) s with
  | Some (v, rest) =>
      match skip_ws rest with
      | [] => Normal v
      | _ => Throw SyntaxError
      end
  | None => Throw SyntaxError
  end.

End JSON.

(** ** Dates *)

Module Date.

(** The civil date [(year, month, day)] of a day number counted from the
    epoch, in the proleptic Gregorian calendar. *)
Definition civil_from_days (days : Z) : Z * Z * Z :=
  let z := days + 719468 in
  let era := z / 146097 in
  let doe := z - era * 146097 in
  let yoe := (doe - doe / 1460 + doe / 36524 - doe / 146096) / 365 in
  let doy := doe - (365 * yoe + yoe / 4 - yoe / 100) in
  let mp := (5 * doy + 2) / 153 in
  let d := doy - (153 * mp + 2) / 5 + 1 in
  let m := if mp <? 10 then mp + 3 else mp - 9 in
  let y := yoe + era * 400 + (if m <=? 2 then 1 else 0) in
  (y, m, d).

(** [n] in at least [width] decimal digits. *)
Definition pad (width n : Z) : list ascii :=
  let ds := to_digits n in
  zeros (width - Z.of_nat (length ds)) ++ ds.

(** [new Date(t).toISOString()] for a time value [t] in milliseconds. *)
Definition toISOString_chars (t : Z) : list ascii :=
  let '(y, m, d) := civil_from_days (t / 86400000) in
  let ms := t mod 86400000 in
  let year :=
    if (0 <=? y) && (y <=? 9999) then pad 4 y
    else (if y <? 0 then "-"%char else "+"%char) :: pad 6 (Z.abs y) in
  year ++ "-"%char :: pad 2 m ++ "-"%char :: pad 2 d
    ++ "T"%char :: pad 2 (ms / 3600000)
    ++ ":"%char :: pad 2 (ms / 60000 mod 60)
    ++ ":"%char :: pad 2 (ms / 1000 mod 60)
    ++ "."%char :: pad 3 (ms mod 1000) ++ ["Z"%char].

Definition toISOString (t : Z) : string :=
  string_of_list_ascii (toISOString_chars t).

(** [text.split("T")[0]]: the text before the first [T]. *)
Definition before_T (text : string) : string :=
  string_of_list_ascii
    (fst (span (fun c => negb (c =? "T")%char) (list_ascii_of_string text))).

End Date.

(** ** The draft store *)

(** [localStorage]: the stored entries, the room the origin is given (in
    code units of keys and values) and whether the page may use the storage
    at all. *)
Record Storage : Type := {
  entries : gmap string string;
  quota : nat;
  accessible : bool
}.

Definition used (m : gmap string string) : nat :=
  map_fold (fun k v n => (String.length k + String.length v + n)%nat) O m.

Definition localStorage_getItem (k : string) (st : Storage)
  : completion (option string) :=
  if accessible st then Normal (entries st !! k) else Throw SecurityError.

Definition localStorage_setItem (k v : string) (st : Storage)
  : completion Storage :=
  if accessible st then
    let m := <[k := v]> (entries st) in
    if (used m <=? quota st)%nat
    then Normal {| entries := m; quota := quota st;
                   accessible := accessible st |}
    else Throw QuotaExceededError
  else Throw SecurityError.

Definition InvoiceItem_to_value (item : InvoiceItem) : jsval string :=
  VObject [ ("id", VString (id item));
            ("description", VString (description item));
            ("quantity", VNumber (quantity item));
            ("price", VNumber (price item)) ]%string.

Definition nullable (s : option string) : jsval string :=
  match s with
  | Some x => VString x
  | None => VNull
  end.

(** An [InvoiceData] object, its properties in the order of the object
    literal that builds it. *)
Definition InvoiceData_to_value (data : InvoiceData) : jsval string :=
  VObject [ ("paperColor", VString (paperColor data));
            ("signature", nullable (signature data));
            ("invoiceNumber", VString (invoiceNumber data));
            ("date", VString (date data));
            ("fromName", VString (fromName data));
            ("fromAddress", VString (fromAddress data));
            ("toName", VString (toName data));
            ("toAddress", VString (toAddress data));
            ("items", VArray (map InvoiceItem_to_value (items data)));
            ("note", VString (note data)) ]%string.

(** [saveToLocalStorage]: the storage afterwards. The handler logs the
    error to the console and goes on. *)
Definition saveToLocalStorage (data : InvoiceData) (st : Storage)
  : completion Storage :=
  try_catch
    (localStorage_setItem STORAGE_KEY
       (default "undefined"%string
                (JSON.stringify (InvoiceData_to_value data))) st)
    (fun error => Normal st).

(** [loadFromLocalStorage]: the parsed record or [null]. The handler logs
    the error to the console and returns [null]. *)
Definition loadFromLocalStorage (st : Storage)
  : completion (jsval jsstring) :=
  try_catch
    (stored ← localStorage_getItem STORAGE_KEY st;
     match stored with
     | Some text => if String.eqb text "" then Normal VNull
                    else JSON.parse text
     | None => Normal VNull
     end)
    (fun error => Normal VNull).

(** [defaultData], the clock reading [t] being an input. *)
Definition defaultData (t : Z) : InvoiceData :=
  {| paperColor := default ""%string (snd <$> head PAPER_COLORS);
     signature := None;
     invoiceNumber := "INV-001";
     date := Date.before_T (Date.toISOString t);
     fromName := "";
     fromAddress := "";
     toName := "";
     toAddress := "";
     items := [ {| id := "1"; description := ""; quantity := one;
                   price := pos_zero |} ];
     note := "" |}.

(** The state of the component: one value for each [useState]. *)
Module View.

Record state : Type := {
  paperColor : jsval jsstring;
  signature : jsval jsstring;
  invoiceNumber : jsval jsstring;
  date : jsval jsstring;
  fromName : jsval jsstring;
  fromAddress : jsval jsstring;
  toName : jsval jsstring;
  toAddress : jsval jsstring;
  items : jsval jsstring;
  note : jsval jsstring
}.

End View.

(** The state that holds the fields of [data]. *)
Definition state_of (data : InvoiceData) : View.state :=
  {| View.paperColor := widen (VString (paperColor data));
     View.signature := widen (nullable (signature data));
     View.invoiceNumber := widen (VString (invoiceNumber data));
     View.date := widen (VString (date data));
     View.fromName := widen (VString (fromName data));
     View.fromAddress := widen (VString (fromAddress data));
     View.toName := widen (VString (toName data));
     View.toAddress := widen (VString (toAddress data));
     View.items := widen (VArray (map InvoiceItem_to_value (items data)));
     View.note := widen (VString (note data)) |}.

(** The state the component starts in. *)
Definition initial_state (t : Z) : View.state := state_of (defaultData t).

(** The effect that runs when the component mounts: the state afterwards. *)
Definition mountEffect (st : Storage) (s : View.state)
  : completion View.state :=
  savedData ← loadFromLocalStorage st;
  if to_boolean savedData then
    Normal
      {| View.paperColor := get_prop savedData "paperColor";
         View.signature := get_prop savedData "signature";
         View.invoiceNumber := get_prop savedData "invoiceNumber";
         View.date := get_prop savedData "date";
         View.fromName := get_prop savedData "fromName";
         View.fromAddress := get_prop savedData "fromAddress";
         View.toName := get_prop savedData "toName";
         View.toAddress := get_prop savedData "toAddress";
         View.items := get_prop savedData "items";
         View.note := let n := get_prop savedData "note" in
                      if to_boolean n then n else VString [] |}
  else Normal s.

(** ** The words of the specification *)

(** "subtotal = sum of lineTotals": the sum of the line totals of the first
    [n] rows, each row added to the sum of the rows before it. *)
Fixpoint sum_of_lineTotals (items : list InvoiceItem) (n : nat) : number :=
  match n with
  | O => pos_zero
  | S k =>
      add (sum_of_lineTotals items k)
          (match items !! k with
           | Some item => lineTotal item
           | None => pos_zero
           end)
  end.

(** The ids of the rows. *)
Definition ids (items : list InvoiceItem) : list string := map id items.

(** Every [addItem] of the sequence draws an id that no row carries when it
    is called. *)
Fixpoint fresh_ids (calls : list call) (items : list InvoiceItem) : Prop :=
  match calls with
  | [] => True
  | c :: rest =>
      match c with
      | AddItem t => Number_toString (Date_now t) ∉ ids items
      | RemoveItem _ => True
      end
      /\ fresh_ids rest (step items c)
  end.

(** A non-negative integer Number. *)
Definition is_nonneg_integer (x : number) : bool :=
  match x with
  | S754_zero false => true
  | S754_finite false m e =>
      valid x && ((0 <=? e) || (Zpos m mod 2 ^ (- e) =? 0))
  | _ => false
  end.

(** A non-negative decimal Number. *)
Definition is_nonneg_decimal (x : number) : bool :=
  match x with
  | S754_zero false => true
  | S754_finite false _ _ => valid x
  | _ => false
  end.

(** A negative Number other than [-0]. *)
Definition is_negative (x : number) : bool :=
  match x with
  | S754_finite true _ _ | S754_infinity true => true
  | _ => false
  end.

(** LineItem of section 3 of the specification. *)
Definition LineItem_schema (item : InvoiceItem) : Prop :=
  is_nonneg_integer (quantity item) = true
  /\ is_nonneg_decimal (price item) = true.

(** InvoiceDraft of section 3 of the specification: a colour of the
    palette, at least one item, item ids unique. *)
Definition InvoiceDraft_schema (data : InvoiceData) : Prop :=
  paperColor data ∈ (snd <$> PAPER_COLORS)
  /\ Forall LineItem_schema (items data)
  /\ NoDup (ids (items data))
  /\ items data <> [].

(** ** The shapes of texts *)

(** What may follow a number in a text: the end, or a character that
    cannot go on with the number. *)
Definition ends_number (rest : list ascii) : bool :=
  match rest with
  | [] => true
  | c :: _ =>
      negb (is_digit c || (c =? ".")%char || (c =? "e")%char
            || (c =? "E")%char)
  end.

(** The text of a decimal literal: an optional minus sign, the digits [ip]
    before the point, the digits [fp] after it when there are some, and an
    exponent (its sign and its digits) when there is one. *)
Definition number_text (neg : bool) (ip fp : list ascii)
    (ex : option (bool * list ascii)) : list ascii :=
  (if neg then ["-"%char] else [])
  ++ ip
  ++ match fp with [] => [] | _ => "."%char :: fp end
  ++ match ex with
     | None => []
     | Some (eneg, eds) =>
         "e"%char :: (if eneg : bool then "-"%char else "+"%char) :: eds
     end.

(** The exponent a literal writes. *)
Definition exponent_value (ex : option (bool * list ascii)) : Z :=
  match ex with
  | None => 0
  | Some (eneg, eds) =>
      if eneg : bool then - digits_value 0 eds else digits_value 0 eds
  end.

Definition digits_only (ds : list ascii) : Prop :=
  Forall (fun c => is_digit c = true) ds.

(** The parts of a JSON number: digits before the point without a leading
    zero, digits after it, and the digits of an exponent. *)
Definition literal_parts (ip fp : list ascii)
    (ex : option (bool * list ascii)) : Prop :=
  digits_only ip
  /\ (exists c ip', ip = c :: ip' /\ (c = "0"%char -> ip' = []))
  /\ digits_only fp
  /\ match ex with
     | None => True
     | Some (_, eds) => digits_only eds /\ eds <> []
     end.

(** ** What a value reads back as *)

(** The value that the text of [v] denotes; [None] when [v] has no text.
    Numbers that are not finite become [null], [-0] becomes [0], an
    [undefined] element becomes [null] and an [undefined] property goes. *)
Fixpoint json_image (v : jsval string) : option (jsval string) :=
  match v with
  | VUndefined => None
  | VNull => Some VNull
  | VBool b => Some (VBool b)
  | VNumber n =>
      Some (if is_finite n
            then VNumber (if is_zero n then pos_zero else n)
            else VNull)
  | VString s => Some (VString s)
  | VArray elems =>
      Some (VArray (map (fun e => default VNull (json_image e)) elems))
  | VObject props =>
      Some (VObject (omap (fun kv => match json_image (snd kv) with
                                     | Some v' => Some (fst kv, v')
                                     | None => None
                                     end) props))
  end.

(** The numbers of a value are binary64 values and the keys of each of its
    objects are distinct. *)
Fixpoint well_formed (v : jsval string) : Prop :=
  match v with
  | VNumber n => valid n = true
  | VArray elems =>
      (fix all (l : list (jsval string)) : Prop :=
         match l with
         | [] => True
         | e :: l' => well_formed e /\ all l'
         end) elems
  | VObject props =>
      NoDup (map fst props)
      /\ (fix all (l : list (string * jsval string)) : Prop :=
            match l with
            | [] => True
            | kv :: l' => well_formed (snd kv) /\ all l'
            end) props
  | _ => True
  end.

(** A character a JSON value can start with. *)
Definition value_start (c : ascii) : bool :=
  is_digit c || (c =? "-")%char || (c =? "n")%char || (c =? "t")%char
  || (c =? "f")%char || (c =? "[")%char || (c =? "{")%char
  || (c =? JSON.quote_mark)%char.

(** The text and the value read back of each element of an array. *)
Definition array_parts (elems : list (jsval string))
  : list (list ascii * jsval jsstring) :=
  map (fun e => (default (list_ascii_of_string "null") (JSON.serialize e),
                 widen (default VNull (json_image e)))) elems.

(** The key, the text and the value read back of each property that has a
    text. *)
Definition object_parts (props : list (string * jsval string))
  : list (string * list ascii * jsval jsstring) :=
  omap (fun kv => match JSON.serialize (snd kv), json_image (snd kv) with
                  | Some t, Some img => Some (fst kv, t, widen img)
                  | _, _ => None
                  end) props.

(** The text of a member: its quoted key, a colon, the text of its value. *)
Definition member_text (p : string * list ascii * jsval jsstring)
  : list ascii :=
  JSON.quote (fst (fst p)) ++ ":"%char :: snd (fst p).

(** ** What the store gives back *)

(** The text [saveToLocalStorage] writes for [data]. *)
Definition snapshot (data : InvoiceData) : string :=
  default "undefined"%string (JSON.stringify (InvoiceData_to_value data)).

(** A number as it is read back from its text. *)
Definition stored_number (x : number) : jsval string :=
  if is_finite x then VNumber (if is_zero x then pos_zero else x) else VNull.

Definition stored_item (item : InvoiceItem) : jsval string :=
  VObject [ ("id", VString (id item));
            ("description", VString (description item));
            ("quantity", stored_number (quantity item));
            ("price", stored_number (price item)) ]%string.

(** The record of [data] as it is read back from its snapshot. *)
Definition stored_value (data : InvoiceData) : jsval string :=
  VObject [ ("paperColor", VString (paperColor data));
            ("signature", nullable (signature data));
            ("invoiceNumber", VString (invoiceNumber data));
            ("date", VString (date data));
            ("fromName", VString (fromName data));
            ("fromAddress", VString (fromAddress data));
            ("toName", VString (toName data));
            ("toAddress", VString (toAddress data));
            ("items", VArray (map stored_item (items data)));
            ("note", VString (note data)) ]%string.

(** The quantities and the prices of [data] are binary64 values. *)
Definition numbers_valid (data : InvoiceData) : Prop :=
  Forall (fun item => valid (quantity item) = true
                      /\ valid (price item) = true) (items data).

(** A number that its text tells in full: finite, and not [-0]. *)
Definition plain_number (x : number) : Prop :=
  valid x = true /\ is_finite x = true /\ x <> neg_zero.

(** The storage takes the snapshot of [data]: it can be used and has the
    room. *)
Definition write_succeeds (data : InvoiceData) (st : Storage) : Prop :=
  accessible st = true
  /\ (used (<[STORAGE_KEY := snapshot data]> (entries st)) <= quota st)%nat.

(** The state in which every field but the note is [undefined]. *)
Definition blank_state : View.state :=
  {| View.paperColor := VUndefined;
     View.signature := VUndefined;
     View.invoiceNumber := VUndefined;
     View.date := VUndefined;
     View.fromName := VUndefined;
     View.fromAddress := VUndefined;
     View.toName := VUndefined;
     View.toAddress := VUndefined;
     View.items := VUndefined;
     View.note := VString [] |}.

Definition is_object (v : jsval jsstring) : bool :=
  match v with VObject _ => true | _ => false end.

(** What may follow the digits [parseInt] reads: the end, or a character
    that is not a digit. *)
Definition stops_integer (rest : list ascii) : bool :=
  match rest with
  | [] => true
  | c :: _ => negb (is_digit c)
  end.

(** A finite number below [10 ^ 21] in size: the numbers [toFixed] lays
    out in fixed notation. *)
Definition fixed_notation (x : number) : bool :=
  match x with
  | S754_zero _ => true
  | S754_finite _ m e => exact_num m e <? 10 ^ 21 * exact_den e
  | _ => false
  end.

(** The size of a finite number as a fraction: numerator and denominator. *)
Definition magnitude (x : number) : Z * Z :=
  match x with
  | S754_finite _ m e => (exact_num m e, exact_den e)
  | _ => (0, 1)
  end.

Definition has_minus (x : number) : bool :=
  match x with
  | S754_finite s _ _ => s
  | _ => false
  end.

(** A Number whose value is an integer. *)
Definition is_integer (x : number) : bool :=
  match x with
  | S754_zero _ => true
  | S754_finite _ m e => (0 <=? e) || (Zpos m mod 2 ^ (- e) =? 0)
  | _ => false
  end.

Definition is_infinite (x : number) : bool :=
  match x with S754_infinity _ => true | _ => false end.

(** [disabled={items.length === 1}] on the remove button of a row. *)
Definition remove_disabled (items : list InvoiceItem) : bool :=
  (length items =? 1)%nat.

(** * Properties *)

(** A decidable closed proposition, by evaluation. *)
Ltac decide_by_compute :=
  apply (bool_decide_unpack _); vm_compute; exact I.

(** ** Decimal digits *)

Section DigitFacts.

Implicit Types (n d : Z) (ds : list ascii) (c : ascii).

Lemma digit_char_val d : 0 <= d < 10 -> digit_val (digit_char d) = d.
Proof.
  intros Hd. unfold digit_val, digit_char.
  rewrite nat_ascii_embedding by lia. lia.
Qed.

Lemma digit_char_is_digit d : 0 <= d < 10 -> is_digit (digit_char d) = true.
Proof.
  intros Hd. unfold is_digit, digit_char.
  rewrite nat_ascii_embedding by lia.
  apply andb_true_intro. split; apply Nat.leb_le; lia.
Qed.

Lemma is_digit_val c : is_digit c = true -> 0 <= digit_val c < 10.
Proof.
  unfold is_digit, digit_val. intros H.
  apply andb_prop in H as [H1 H2].
  apply Nat.leb_le in H1. apply Nat.leb_le in H2. lia.
Qed.

Lemma digit_char_zero : digit_char 0 = "0"%char.
Proof. reflexivity. Qed.

Lemma digit_char_inj d d' :
  0 <= d < 10 -> 0 <= d' < 10 -> digit_char d = digit_char d' -> d = d'.
Proof.
  intros Hd Hd' Heq. rewrite <- (digit_char_val d), <- (digit_char_val d') by done.
  by rewrite Heq.
Qed.

Lemma to_digits_aux_acc fuel n acc :
  to_digits_aux fuel n acc = to_digits_aux fuel n [] ++ acc.
Proof.
  revert n acc. induction fuel as [|fuel IH]; intros n acc; simpl; [done|].
  destruct (n <? 10); [done|].
  rewrite IH. rewrite (IH _ [_]). by rewrite <- app_assoc.
Qed.

Lemma to_digits_aux_fuel fuel fuel' n :
  0 <= n < 2 ^ (Z.of_nat fuel + 1) -> 0 <= n < 2 ^ (Z.of_nat fuel' + 1) ->
  to_digits_aux fuel n [] = to_digits_aux fuel' n [].
Proof.
  revert fuel' n. induction fuel as [|fuel IH]; intros fuel' n Hn Hn'.
  - change (2 ^ (Z.of_nat 0 + 1)) with 2 in Hn.
    destruct fuel'; cbn [to_digits_aux]; rewrite Z.mod_small by lia; [done|].
    destruct (n <? 10) eqn:E; [done|]. apply Z.ltb_ge in E. lia.
  - cbn [to_digits_aux]. destruct (n <? 10) eqn:E.
    + destruct fuel'; cbn [to_digits_aux]; [|by rewrite E].
      apply Z.ltb_lt in E. by rewrite Z.mod_small by lia.
    + destruct fuel' as [|fuel'].
      * apply Z.ltb_ge in E. change (2 ^ (Z.of_nat 0 + 1)) with 2 in Hn'. lia.
      * cbn [to_digits_aux]. rewrite E. apply Z.ltb_ge in E.
        rewrite to_digits_aux_acc, (to_digits_aux_acc fuel'). f_equal.
        assert (Hhalf : forall k : nat,
                   n < 2 ^ (Z.of_nat (S k) + 1) -> n / 10 < 2 ^ (Z.of_nat k + 1)).
        { intros k Hk.
          replace (Z.of_nat (S k) + 1) with (Z.succ (Z.of_nat k + 1)) in Hk by lia.
          rewrite Z.pow_succ_r in Hk by lia.
          apply Z.div_lt_upper_bound; lia. }
        apply IH; (split; [apply Z.div_pos; lia | apply Hhalf; lia]).
Qed.

Lemma log2_fuel n : 0 <= n -> n < 2 ^ (Z.of_nat (Z.to_nat (Z.log2 n)) + 1).
Proof.
  intros Hn. rewrite Z2Nat.id by apply Z.log2_nonneg.
  destruct (Z.eq_dec n 0) as [->|Hne]; [done|].
  pose proof (Z.log2_spec n ltac:(lia)) as [_ H].
  by replace (Z.log2 n + 1) with (Z.succ (Z.log2 n)) by lia.
Qed.

(** The defining equations of [to_digits]. *)
Lemma to_digits_small n : 0 <= n < 10 -> to_digits n = [digit_char n].
Proof.
  intros Hn. unfold to_digits.
  destruct (Z.to_nat (Z.log2 n)); simpl.
  - by rewrite Z.mod_small.
  - destruct (n <? 10) eqn:E; [done|]. apply Z.ltb_ge in E. lia.
Qed.

Lemma to_digits_step n :
  10 <= n -> to_digits n = to_digits (n / 10) ++ [digit_char (n mod 10)].
Proof.
  intros Hn. unfold to_digits.
  destruct (Z.to_nat (Z.log2 n)) as [|fuel] eqn:Efuel.
  - pose proof (log2_fuel n ltac:(lia)) as H. rewrite Efuel in H.
    change (2 ^ (Z.of_nat 0 + 1)) with 2 in H. lia.
  - simpl. destruct (n <? 10) eqn:E; [apply Z.ltb_lt in E; lia|].
    rewrite to_digits_aux_acc. f_equal.
    assert (0 <= n / 10) by (apply Z.div_pos; lia).
    apply to_digits_aux_fuel; [|by split; [|apply log2_fuel]].
    split; [done|].
    pose proof (log2_fuel n ltac:(lia)) as H'. rewrite Efuel in H'.
    replace (Z.of_nat (S fuel) + 1) with (Z.succ (Z.of_nat fuel + 1)) in H' by lia.
    rewrite Z.pow_succ_r in H' by lia.
    apply Z.div_lt_upper_bound; lia.
Qed.

(** Induction along the decimal digits of a non-negative integer. *)
Lemma digits_ind (P : Z -> Prop) :
  (forall n, 0 <= n < 10 -> P n) ->
  (forall n, 10 <= n -> P (n / 10) -> P n) ->
  forall n, 0 <= n -> P n.
Proof.
  intros Hsmall Hstep. apply Zlt_0_ind.
  intros n IH Hn. destruct (Z_lt_dec n 10) as [Hlt|Hge]; [by apply Hsmall|].
  apply Hstep; [lia|]. apply IH. split; [apply Z.div_pos; lia|].
  apply Z.div_lt; lia.
Qed.

Lemma digits_value_app acc ds ds' :
  digits_value acc (ds ++ ds') = digits_value (digits_value acc ds) ds'.
Proof. unfold digits_value. apply fold_left_app. Qed.

Lemma digits_value_acc acc ds :
  digits_value acc ds
  = acc * 10 ^ Z.of_nat (length ds) + digits_value 0 ds.
Proof.
  revert acc. induction ds as [|c ds IH]; intros acc.
  - simpl. lia.
  - change (digits_value acc (c :: ds))
      with (digits_value (10 * acc + digit_val c) ds).
    change (digits_value 0 (c :: ds))
      with (digits_value (10 * 0 + digit_val c) ds).
    rewrite IH, (IH (10 * 0 + _)).
    replace (Z.of_nat (length (c :: ds))) with (Z.succ (Z.of_nat (length ds)))
      by (simpl; lia).
    rewrite Z.pow_succ_r by lia. lia.
Qed.

Lemma to_digits_value n : 0 <= n -> digits_value 0 (to_digits n) = n.
Proof.
  revert n. apply digits_ind.
  - intros n Hn. rewrite to_digits_small by done. simpl.
    rewrite digit_char_val by done. lia.
  - intros n Hn IH. rewrite to_digits_step by done.
    rewrite digits_value_app, IH. simpl.
    rewrite digit_char_val by (apply Z.mod_pos_bound; lia).
    pose proof (Z.div_mod n 10). lia.
Qed.

Lemma to_digits_digits n : 0 <= n -> Forall (fun c => is_digit c = true) (to_digits n).
Proof.
  revert n. apply digits_ind.
  - intros n Hn. rewrite to_digits_small by done.
    constructor; [by apply digit_char_is_digit|constructor].
  - intros n Hn IH. rewrite to_digits_step by done.
    apply Forall_app. split; [done|].
    constructor; [|constructor].
    apply digit_char_is_digit. apply Z.mod_pos_bound. lia.
Qed.

(** The first digit of a positive integer is not 0: there is one, and its
    value is positive. *)
Lemma to_digits_head n :
  0 < n -> exists c ds, to_digits n = c :: ds /\ 0 < digit_val c < 10.
Proof.
  intros Hn. assert (H0 : 0 <= n) by lia. revert n H0 Hn. apply (digits_ind (fun n => 0 < n -> _)).
  - intros n Hn Hpos. rewrite to_digits_small by done.
    exists (digit_char n), []. split; [done|].
    rewrite digit_char_val by done. lia.
  - intros n Hn IH _. rewrite to_digits_step by done.
    destruct IH as (c & ds & -> & Hc).
    { apply Z.div_str_pos. lia. }
    by exists c, (ds ++ [digit_char (n mod 10)]).
Qed.

Lemma to_digits_nonempty n : to_digits n <> [].
Proof.
  unfold to_digits. generalize (Z.to_nat (Z.log2 n)). intros fuel.
  rewrite to_digits_aux_acc.
  destruct fuel; simpl; [done|]. destruct (n <? 10); [done|].
  rewrite to_digits_aux_acc. by destruct (to_digits_aux fuel (n / 10) []).
Qed.

(** A positive integer lies between the powers of 10 of its digit count. *)
Lemma to_digits_bounds n :
  0 < n ->
  10 ^ (Z.of_nat (length (to_digits n)) - 1) <= n
  < 10 ^ Z.of_nat (length (to_digits n)).
Proof.
  intros Hn. assert (H0 : 0 <= n) by lia. revert n H0 Hn.
  apply (digits_ind (fun n => 0 < n -> _)).
  - intros n Hn Hpos. rewrite to_digits_small by done. simpl. lia.
  - intros n Hn IH _. rewrite to_digits_step by done.
    rewrite length_app. simpl length.
    replace (Z.of_nat (length (to_digits (n / 10)) + 1))
      with (Z.succ (Z.of_nat (length (to_digits (n / 10))))) by lia.
    specialize (IH ltac:(apply Z.div_str_pos; lia)).
    assert (Hlen : 1 <= Z.of_nat (length (to_digits (n / 10)))).
    { pose proof (to_digits_nonempty (n / 10)).
      destruct (to_digits (n / 10)); [done|simpl; lia]. }
    rewrite Z.pow_succ_r by lia.
    replace (Z.succ (Z.of_nat (length (to_digits (n / 10)))) - 1)
      with (Z.succ (Z.of_nat (length (to_digits (n / 10))) - 1)) by lia.
    rewrite Z.pow_succ_r by lia.
    pose proof (Z.div_mod n 10 ltac:(lia)).
    pose proof (Z.mod_pos_bound n 10 ltac:(lia)). lia.
Qed.

Lemma zeros_length k : 0 <= k -> Z.of_nat (length (zeros k)) = k.
Proof. intros Hk. unfold zeros. rewrite repeat_length. lia. Qed.

Lemma zeros_digits k : Forall (fun c => is_digit c = true) (zeros k).
Proof. unfold zeros. apply Forall_forall. intros c Hc.
  apply list_elem_of_In, repeat_spec in Hc. by subst. Qed.

Lemma digits_value_zeros acc k :
  0 <= k -> digits_value acc (zeros k) = acc * 10 ^ k.
Proof.
  intros Hk. unfold zeros.
  rewrite <- (Z2Nat.id k) at 2 by done.
  generalize (Z.to_nat k). intros j. revert acc.
  induction j as [|j IH]; intros acc.
  - simpl. lia.
  - change (digits_value acc (repeat "0"%char (S j)))
      with (digits_value (10 * acc + 0) (repeat "0"%char j)).
    rewrite IH. rewrite Nat2Z.inj_succ, Z.pow_succ_r by lia. lia.
Qed.

(** [span] on a run of digits followed by something else. *)
Lemma span_digits ds rest :
  Forall (fun c => is_digit c = true) ds ->
  match rest with c :: _ => is_digit c = false | [] => True end ->
  span is_digit (ds ++ rest) = (ds, rest).
Proof.
  intros Hds Hrest. induction Hds as [|c ds Hc _ IH]; simpl.
  - destruct rest as [|c rest]; [done|]. simpl. by rewrite Hrest.
  - by rewrite Hc, IH.
Qed.

End DigitFacts.

(** ** The item list operations *)

Section ItemList.

Implicit Types (items : list InvoiceItem) (item : InvoiceItem).

Lemma removeItem_short items id0 :
  (length items <= 1)%nat -> removeItem id0 items = items.
Proof.
  intros Hlen. unfold removeItem.
  destruct (1 <? length items)%nat eqn:E; [|reflexivity].
  apply Nat.ltb_lt in E. lia.
Qed.

Lemma filter_other_ids items id0 :
  Forall (fun item => id item <> id0) items ->
  List.filter (fun item => negb (String.eqb (id item) id0)) items = items.
Proof.
  induction 1 as [|item rest Hne _ IH]; simpl; [reflexivity|].
  destruct (String.eqb_spec (id item) id0) as [Heq|_]; [done|].
  simpl. by rewrite IH.
Qed.

Lemma updateItem_other_ids items id0 f (v : field_type f) :
  Forall (fun item => id item <> id0) items ->
  updateItem id0 f v items = items.
Proof.
  unfold updateItem.
  induction 1 as [|item rest Hne _ IH]; simpl; [reflexivity|].
  destruct (String.eqb_spec (id item) id0) as [Heq|_]; [done|].
  by rewrite IH.
Qed.

Lemma get_set_field f (v : field_type f) item :
  get_field f (set_field f v item) = v.
Proof. by destruct f. Qed.

Lemma get_set_field_other f g (v : field_type f) item :
  g <> f -> get_field g (set_field f v item) = get_field g item.
Proof. by destruct f, g. Qed.

Lemma length_updateItem items id0 f (v : field_type f) :
  length (updateItem id0 f v items) = length items.
Proof. unfold updateItem. by rewrite length_map. Qed.

Lemma lookup_updateItem items id0 f (v : field_type f) i :
  updateItem id0 f v items !! i =
  (fun item => if String.eqb (id item) id0 then set_field f v item else item)
    <$> items !! i.
Proof. unfold updateItem. by rewrite list_lookup_fmap. Qed.

(** Removing one id from rows with distinct ids takes at most one row. *)
Lemma length_filter_NoDup items id0 :
  NoDup (ids items) ->
  (length items <=
   S (length (List.filter (fun item => negb (String.eqb (id item) id0))
                          items)))%nat.
Proof.
  induction items as [|item rest IH]; simpl; [lia|].
  intros Hnd. apply NoDup_cons in Hnd as [Hnotin Hnd].
  destruct (String.eqb_spec (id item) id0) as [Heq|Hne]; simpl.
  - rewrite filter_other_ids; [lia|].
    apply Forall_forall. intros other Hin Hother. apply Hnotin.
    rewrite Heq, <- Hother. unfold ids. apply list_elem_of_fmap.
    exists other. by split.
  - specialize (IH Hnd). lia.
Qed.

Lemma NoDup_ids_filter items (p : InvoiceItem -> bool) :
  NoDup (ids items) -> NoDup (ids (List.filter p items)).
Proof.
  induction items as [|item rest IH]; simpl; [done|].
  intros Hnd. apply NoDup_cons in Hnd as [Hnotin Hnd].
  destruct (p item); simpl; [|by apply IH].
  apply NoDup_cons. split; [|by apply IH].
  intros Hin. apply Hnotin. unfold ids in *.
  apply list_elem_of_fmap in Hin as (other & -> & Hin).
  apply list_elem_of_fmap. exists other. split; [done|].
  apply list_elem_of_In. apply list_elem_of_In in Hin.
  apply List.filter_In in Hin. tauto.
Qed.

Lemma NoDup_ids_removeItem items id0 :
  NoDup (ids items) -> NoDup (ids (removeItem id0 items)).
Proof.
  unfold removeItem. destruct (1 <? length items)%nat; [|done].
  apply NoDup_ids_filter.
Qed.

Lemma length_removeItem_NoDup items id0 :
  NoDup (ids items) -> (1 <= length items)%nat ->
  (1 <= length (removeItem id0 items))%nat.
Proof.
  intros Hnd Hlen. unfold removeItem.
  destruct (1 <? length items)%nat eqn:E; [|done].
  apply Nat.ltb_lt in E. pose proof (length_filter_NoDup items id0 Hnd). lia.
Qed.

Lemma ids_addItem items t :
  ids (addItem t items) = ids items ++ [Number_toString (Date_now t)].
Proof. unfold ids, addItem. by rewrite map_app. Qed.

Lemma run_app calls calls' items :
  run (calls ++ calls') items = run calls' (run calls items).
Proof. unfold run. apply fold_left_app. Qed.

Lemma fresh_ids_app calls calls' items :
  fresh_ids (calls ++ calls') items -> fresh_ids calls items.
Proof.
  revert items. induction calls as [|c calls IH]; simpl; [done|].
  intros items [Hc Hrest]. split; [done|]. by apply IH.
Qed.

(** The invariant of the calls that draw fresh ids. *)
Lemma run_invariant calls items :
  NoDup (ids items) -> (1 <= length items)%nat -> fresh_ids calls items ->
  NoDup (ids (run calls items)) /\ (1 <= length (run calls items))%nat.
Proof.
  revert items. induction calls as [|c calls IH]; simpl; [done|].
  intros items Hnd Hlen [Hc Hrest]. apply IH; [| |done].
  - destruct c as [t|id0]; simpl.
    + rewrite ids_addItem. apply NoDup_app. split; [done|].
      split; [|apply NoDup_singleton].
      intros x Hx Hx'. apply list_elem_of_singleton in Hx'. by subst.
    + by apply NoDup_ids_removeItem.
  - destruct c as [t|id0]; simpl.
    + unfold addItem. rewrite length_app. simpl. lia.
    + by apply length_removeItem_NoDup.
Qed.

End ItemList.

(** ** The claims about the item list *)

(** C3: the code misses the invariant it guards. [removeItem] keeps the
    last row by its test [items.length > 1], and the remove button is
    disabled on a list of one row; but [removeItem] takes every row that
    carries the id, and [addItem] gives two rows added at one clock reading
    the same id. From the default row, two rows added at the reading
    1700000000000 and the default row removed leave two rows of one id,
    and removing that id leaves no row at all. *)
Theorem C3_same_reading_empties_list :
  items (defaultData 1700000000000) = [blank_item "1"]
  /\ (1 <= length [blank_item "1"])%nat
  /\ run [AddItem 1700000000000; AddItem 1700000000000; RemoveItem "1"]
         [blank_item "1"]
     = [blank_item "1700000000000"; blank_item "1700000000000"]
  /\ run [AddItem 1700000000000; AddItem 1700000000000; RemoveItem "1";
          RemoveItem "1700000000000"]
         [blank_item "1"] = []
  /\ ~ (1 <= length (run [AddItem 1700000000000; AddItem 1700000000000;
                          RemoveItem "1"; RemoveItem "1700000000000"]
                         [blank_item "1"]))%nat.
Proof.
  split; [reflexivity|]. split; [simpl; lia|].
  split; [vm_compute; reflexivity|].
  assert (Hrun : run [AddItem 1700000000000; AddItem 1700000000000;
                      RemoveItem "1"; RemoveItem "1700000000000"]
                     [blank_item "1"] = [])
    by (vm_compute; reflexivity).
  split; [exact Hrun|]. rewrite Hrun. simpl. lia.
Qed.

(** X20: what the invariant rests on. Starting from rows with pairwise
    distinct ids, at least one of them, and along calls whose every
    [addItem] draws an id that no row carries, the list has at least one
    row after every prefix of the calls. *)
Theorem X20_fresh_ids_keep_one_row (items : list InvoiceItem)
    (calls done_calls : list call) :
  NoDup (ids items) ->
  (1 <= length items)%nat ->
  fresh_ids calls items ->
  done_calls `prefix_of` calls ->
  (1 <= length (run done_calls items))%nat.
Proof.
  intros Hnd Hlen Hfresh [later ->].
  apply (run_invariant done_calls items Hnd Hlen).
  by apply fresh_ids_app with later.
Qed.

Lemma X20_fresh_ids_keep_one_row_witness :
  (1 <= length (run [AddItem 1700000000000; RemoveItem "1"]
                    [blank_item "1"]))%nat.
Proof.
  apply (X20_fresh_ids_keep_one_row [blank_item "1"]
           [AddItem 1700000000000; RemoveItem "1";
            AddItem 1700000000001; RemoveItem "1700000000000"]
           [AddItem 1700000000000; RemoveItem "1"]).
  - decide_by_compute.
  - simpl. lia.
  - cbn [fresh_ids]. repeat split; decide_by_compute.
  - exists [AddItem 1700000000001; RemoveItem "1700000000000"]. reflexivity.
Defined.

(** C4: on a list of exactly one row, [removeItem] of any id, the id of the
    row or another, returns the list as it is. *)
Theorem C4_removeItem_keeps_last_item (items : list InvoiceItem)
    (id0 : string) :
  length items = 1%nat ->
  removeItem id0 items = items /\ length (removeItem id0 items) = 1%nat.
Proof.
  intros Hlen. rewrite removeItem_short by lia. by split.
Qed.

Lemma C4_removeItem_keeps_last_item_witness :
  removeItem "1" [blank_item "1"] = [blank_item "1"]
  /\ length (removeItem "1" [blank_item "1"]) = 1%nat.
Proof.
  apply (C4_removeItem_keeps_last_item [blank_item "1"] "1"). reflexivity.
Defined.

(** C5: the id [addItem] draws is not unique. It is the decimal text of
    the clock reading, and no row is looked at: a second row added at the
    reading of the first gets the id of the first, so that the list holds
    one id twice. *)
Theorem C5_same_reading_repeats_id :
  addItem 1700000000000 (addItem 1700000000000 [blank_item "1"])
  = addItem 1700000000000 [blank_item "1"]
    ++ [blank_item "1700000000000"]
  /\ id (blank_item "1700000000000")
     ∈ ids (addItem 1700000000000 [blank_item "1"])
  /\ ids (addItem 1700000000000 (addItem 1700000000000 [blank_item "1"]))
     = ["1"; "1700000000000"; "1700000000000"]%string
  /\ ~ NoDup (ids (addItem 1700000000000
                     (addItem 1700000000000 [blank_item "1"]))).
Proof.
  assert (Hids : ids (addItem 1700000000000
                        (addItem 1700000000000 [blank_item "1"]))
                 = ["1"; "1700000000000"; "1700000000000"]%string)
    by (vm_compute; reflexivity).
  split; [vm_compute; reflexivity|]. split; [decide_by_compute|].
  split; [exact Hids|]. rewrite Hids. intros Hnd.
  apply NoDup_cons in Hnd as [_ Hnd]. apply NoDup_cons in Hnd as [Hin _].
  apply Hin. apply list_elem_of_here.
Qed.

(** X21: [addItem] appends exactly one row at the end, with quantity 1,
    price 0, an empty description and, as id, the decimal text of the
    clock reading; the rows before it are unchanged and keep their places.
    On rows with distinct ids the ids stay distinct exactly when no row
    carries that text. *)
Theorem X21_addItem_appends_blank_row (items : list InvoiceItem) (t : Z) :
  exists new,
    addItem t items = items ++ [new]
    /\ id new = Number_toString (Date_now t)
    /\ description new = ""%string
    /\ quantity new = one
    /\ price new = pos_zero
    /\ length (addItem t items) = S (length items)
    /\ (forall i item, items !! i = Some item ->
                       addItem t items !! i = Some item)
    /\ (NoDup (ids items) ->
        (NoDup (ids (addItem t items))
         <-> Number_toString (Date_now t) ∉ ids items)).
Proof.
  exists (blank_item (Number_toString (Date_now t))).
  repeat split; try done.
  - unfold addItem. rewrite length_app. simpl. lia.
  - intros i item Hi. unfold addItem. by apply lookup_app_l_Some.
  - rewrite ids_addItem. intros Hnd' Hin.
    apply NoDup_app in Hnd' as (_ & Hdisj & _).
    apply (Hdisj _ Hin). by apply list_elem_of_singleton.
  - rewrite ids_addItem. intros Hnotin. apply NoDup_app. split; [done|].
    split; [|apply NoDup_singleton].
    intros x Hx Hx'. apply list_elem_of_singleton in Hx'. by subst.
Qed.

(** C6: [updateItem] keeps the length and the order of the list; a row
    with the given id has the named field replaced by the value and its
    other fields unchanged; a row with another id is unchanged. *)
Theorem C6_updateItem_frame (items : list InvoiceItem) (id0 : string)
    (f : field) (v : field_type f) :
  length (updateItem id0 f v items) = length items
  /\ forall i item,
       items !! i = Some item ->
       exists item',
         updateItem id0 f v items !! i = Some item'
         /\ (id item = id0 ->
             get_field f item' = v
             /\ forall g, g <> f -> get_field g item' = get_field g item)
         /\ (id item <> id0 -> item' = item).
Proof.
  split; [apply length_updateItem|].
  intros i item Hi. rewrite lookup_updateItem, Hi. simpl.
  destruct (String.eqb_spec (id item) id0) as [Heq|Hne].
  - exists (set_field f v item). split; [done|]. split; [|done].
    intros _. split; [apply get_set_field|].
    intros g Hg. by apply get_set_field_other.
  - exists item. by repeat split.
Qed.

(** C10: with an id that no row carries, [removeItem] (whatever the length
    of the list) and [updateItem] (whatever the field and the value) return
    the list as it is. *)
Theorem C10_unknown_id_changes_nothing (items : list InvoiceItem)
    (id0 : string) (f : field) (v : field_type f) :
  Forall (fun item => id item <> id0) items ->
  removeItem id0 items = items /\ updateItem id0 f v items = items.
Proof.
  intros Hnone. split.
  - unfold removeItem. destruct (1 <? length items)%nat; [|done].
    by apply filter_other_ids.
  - by apply updateItem_other_ids.
Qed.

Lemma C10_unknown_id_changes_nothing_witness :
  removeItem "9" [blank_item "1"; blank_item "2"]
    = [blank_item "1"; blank_item "2"]
  /\ updateItem "9" f_quantity (of_Z 3) [blank_item "1"; blank_item "2"]
    = [blank_item "1"; blank_item "2"].
Proof.
  apply (C10_unknown_id_changes_nothing
           [blank_item "1"; blank_item "2"] "9" f_quantity (of_Z 3)).
  repeat constructor; simpl; discriminate.
Defined.

(** ** The totals *)

Section Totals.

Implicit Types (items : list InvoiceItem) (item : InvoiceItem).

Lemma subtotal_snoc items item :
  subtotal (items ++ [item]) = add (subtotal items) (lineTotal item).
Proof. unfold subtotal. by rewrite fold_left_app. Qed.

Lemma sum_of_lineTotals_app items more n :
  (n <= length items)%nat ->
  sum_of_lineTotals (items ++ more) n = sum_of_lineTotals items n.
Proof.
  induction n as [|n IH]; intros Hn; simpl; [done|].
  rewrite IH by lia. by rewrite lookup_app_l by lia.
Qed.

Lemma subtotal_sum items :
  subtotal items = sum_of_lineTotals items (length items).
Proof.
  induction items as [|item items IH] using rev_ind; [done|].
  rewrite subtotal_snoc, length_app. simpl length.
  rewrite Nat.add_1_r. simpl.
  rewrite sum_of_lineTotals_app by lia. rewrite <- IH.
  by rewrite list_lookup_middle.
Qed.

Lemma mul_finite_zero x y :
  is_finite x = true -> is_zero y = true -> is_zero (mul x y) = true.
Proof. by destruct x, y. Qed.

Lemma add_zero_zero y : is_zero y = true -> add pos_zero y = pos_zero.
Proof. destruct y as [[]| | |]; done. Qed.

Lemma subtotal_zero_prices items :
  Forall (fun item => is_finite (quantity item) = true
                      /\ is_zero (price item) = true) items ->
  subtotal items = pos_zero.
Proof.
  induction items as [|item items IH] using rev_ind; [done|].
  intros Hall. apply Forall_app in Hall as [Hitems Hitem].
  apply Forall_singleton in Hitem as [Hq Hp].
  rewrite subtotal_snoc, IH by done.
  apply add_zero_zero. by apply mul_finite_zero.
Qed.

End Totals.

(** C2, as stated, fails: prices that are all 0 do not make the subtotal
    0 when a quantity is infinite. The row of quantity Infinity and price
    0, which the quantity handler stores for a text of 400 nines, has the
    line total NaN (Infinity times 0), and the subtotal is NaN, shown as
    [$NaN]. *)
Lemma C2_counterexample_infinite_quantity :
  exists rows,
    rows = [ {| id := "1"; description := ""; quantity := Infinity;
                price := pos_zero |} ]
    /\ onQuantityChange (blank_item "1")
         (string_of_list_ascii (repeat "9"%char 400)) [blank_item "1"]
       = rows
    /\ Forall (fun item => price item = pos_zero) rows
    /\ subtotal rows = NaN
    /\ subtotal rows <> pos_zero
    /\ subtotal_text (render_totals rows) = "$NaN"%string
    /\ total_text (render_totals rows) = "$NaN"%string.
Proof.
  eexists. split; [reflexivity|].
  split; [vm_compute; reflexivity|].
  split; [by repeat constructor|].
  split; [reflexivity|]. split; [discriminate|].
  split; vm_compute; reflexivity.
Qed.

(** C2, amended: the subtotal is the sum of the line totals
    [quantity * price] of the rows, added in the order of the rows; the
    amount shown after SUBTOTAL and the amount shown after TOTAL are both
    the subtotal with two decimals; the default list of one row of
    quantity 1 and price 0 has subtotal 0; and rows whose prices are all 0
    and whose quantities are all finite have subtotal 0, shown as
    [$0.00]. *)
Theorem C2_subtotal_is_sum_of_line_totals (rows : list InvoiceItem) :
  subtotal rows = sum_of_lineTotals rows (length rows)
  /\ subtotal_text (render_totals rows)
     = ("$" ++ toFixed (subtotal rows) 2)%string
  /\ total_text (render_totals rows)
     = ("$" ++ toFixed (subtotal rows) 2)%string
  /\ total_text (render_totals rows) = subtotal_text (render_totals rows)
  /\ (forall t, subtotal (items (defaultData t)) = pos_zero)
  /\ (Forall (fun item => is_finite (quantity item) = true
                          /\ is_zero (price item) = true) rows ->
      subtotal rows = pos_zero
      /\ subtotal_text (render_totals rows) = "$0.00"%string
      /\ total_text (render_totals rows) = "$0.00"%string).
Proof.
  split; [apply subtotal_sum|]. split; [done|]. split; [done|].
  split; [done|]. split; [done|].
  intros Hzero. unfold render_totals. simpl.
  by rewrite subtotal_zero_prices.
Qed.

Lemma C2_subtotal_is_sum_of_line_totals_witness :
  (subtotal [ blank_item "1";
              {| id := "2"; description := "paper"; quantity := of_Z 3;
                 price := of_decimal false 1050 (-2) |} ]
   = sum_of_lineTotals
       [ blank_item "1";
         {| id := "2"; description := "paper"; quantity := of_Z 3;
            price := of_decimal false 1050 (-2) |} ] 2
   /\ total_text
        (render_totals
           [ blank_item "1";
             {| id := "2"; description := "paper"; quantity := of_Z 3;
                price := of_decimal false 1050 (-2) |} ])
      = "$31.50"%string)
  /\ subtotal [ {| id := "1"; description := ""; quantity := of_Z 3;
                   price := pos_zero |};
                {| id := "2"; description := ""; quantity := of_Z (-5);
                   price := pos_zero |} ] = pos_zero
  /\ total_text
       (render_totals
          [ {| id := "1"; description := ""; quantity := of_Z 3;
               price := pos_zero |};
            {| id := "2"; description := ""; quantity := of_Z (-5);
               price := pos_zero |} ]) = "$0.00"%string.
Proof.
  destruct (C2_subtotal_is_sum_of_line_totals
              [ blank_item "1";
                {| id := "2"; description := "paper"; quantity := of_Z 3;
                   price := of_decimal false 1050 (-2) |} ])
    as (Hsum & _ & Htotal & _).
  destruct (C2_subtotal_is_sum_of_line_totals
              [ {| id := "1"; description := ""; quantity := of_Z 3;
                   price := pos_zero |};
                {| id := "2"; description := ""; quantity := of_Z (-5);
                   price := pos_zero |} ])
    as (_ & _ & _ & _ & _ & Hzero).
  split; [split|].
  - exact Hsum.
  - rewrite Htotal. vm_compute. reflexivity.
  - destruct Hzero as (H0 & _ & Htext).
    + repeat constructor.
    + split; [exact H0|exact Htext].
Defined.

(** ** The numeric inputs *)

(** C8: a quantity text that does not parse as a number (as the empty text
    does not) sets the quantity of the rows of that id to 1; a price text
    that does not parse as a number (as the empty text does not) sets
    their price to 0. *)
Theorem C8_invalid_entry_is_coerced (item : InvoiceItem) (text : string)
    (items : list InvoiceItem) :
  (parseInt text = NaN ->
   onQuantityChange item text items
   = updateItem (id item) f_quantity one items)
  /\ (parseFloat text = NaN ->
      onPriceChange item text items
      = updateItem (id item) f_price pos_zero items)
  /\ parseInt "" = NaN
  /\ parseFloat "" = NaN
  /\ forall i row,
       items !! i = Some row -> id row = id item ->
       (parseInt text = NaN ->
        quantity <$> onQuantityChange item text items !! i = Some one)
       /\ (parseFloat text = NaN ->
           price <$> onPriceChange item text items !! i = Some pos_zero).
Proof.
  unfold onQuantityChange, onPriceChange.
  split; [by intros ->|]. split; [by intros ->|].
  split; [done|]. split; [done|].
  intros i row Hi Hid.
  split; intros ->; rewrite lookup_updateItem, Hi; simpl;
    by rewrite Hid, String.eqb_refl.
Qed.

Lemma C8_invalid_entry_is_coerced_witness :
  onQuantityChange (blank_item "1") "abc" [blank_item "1"]
  = updateItem "1" f_quantity one [blank_item "1"]
  /\ onPriceChange (blank_item "1") "." [blank_item "1"]
     = updateItem "1" f_price pos_zero [blank_item "1"].
Proof.
  destruct (C8_invalid_entry_is_coerced (blank_item "1") "abc"
              [blank_item "1"]) as (Hq & _).
  destruct (C8_invalid_entry_is_coerced (blank_item "1") "."
              [blank_item "1"]) as (_ & Hp & _).
  split; [apply Hq | apply Hp]; vm_compute; reflexivity.
Defined.

(** ** Rounding *)

Section Rounding.

Lemma pow2_pos n : 0 < pow2 n.
Proof. unfold pow2. apply Z.pow_pos_nonneg; lia. Qed.

Lemma pow2_nonpos n : n <= 0 -> pow2 n = 1.
Proof. intros Hn. unfold pow2. by rewrite Z.max_l by lia. Qed.

Lemma pow2_nonneg n : 0 <= n -> pow2 n = 2 ^ n.
Proof. intros Hn. unfold pow2. by rewrite Z.max_r by lia. Qed.

Lemma round_half_even_ge n d :
  0 < d -> 0 <= n -> n / d <= round_half_even n d.
Proof.
  intros Hd Hn. unfold round_half_even.
  destruct (2 * (n mod d) ?= d); [destruct (Z.even (n / d))| |]; lia.
Qed.

Lemma ilog2_ratio_int a : ilog2_ratio a 1 <= Z.log2 a.
Proof.
  unfold ilog2_ratio. change (Z.log2 1) with 0.
  destruct (_ <=? _); lia.
Qed.

(** The Number value of a positive integer is not a zero: it is finite or
    infinite, with the sign asked for. *)
Lemma round_ratio_int sign a :
  0 < a ->
  match round_ratio sign a 1 with
  | S754_finite s _ _ | S754_infinity s => s = sign
  | _ => False
  end.
Proof.
  intros Ha. unfold round_ratio.
  set (E := Z.max (ilog2_ratio a 1 - 52) (-1074)).
  set (M := round_half_even (scaled_num a E) (scaled_den 1 E)).
  assert (HM : 1 <= M).
  { subst M. etransitivity; [|apply round_half_even_ge].
    - apply Z.div_le_lower_bound; [unfold scaled_den; pose proof (pow2_pos E); lia|].
      unfold scaled_num, scaled_den.
      destruct (Z_le_gt_dec E 0) as [HE|HE].
      + rewrite (pow2_nonpos E) by done. pose proof (pow2_pos (- E)). nia.
      + rewrite (pow2_nonpos (- E)), (pow2_nonneg E) by lia.
        pose proof (ilog2_ratio_int a).
        pose proof (Z.log2_spec a Ha) as [Hlog _].
        assert (2 ^ E <= 2 ^ Z.log2 a) by (apply Z.pow_le_mono_r; lia).
        lia.
    - unfold scaled_den. pose proof (pow2_pos E). lia.
    - unfold scaled_num. pose proof (pow2_pos (- E)). nia. }
  destruct (M =? 2 ^ 53) eqn:EM.
  - change (2 ^ 52) with 4503599627370496. by destruct (_ <=? _).
  - destruct M; [lia| |lia]. by destruct (_ <=? _).
Qed.

End Rounding.

(** ** Scanning *)

Section Scanning.

Implicit Types (s ds rest : list ascii) (c : ascii).

Lemma list_ascii_of_string_of_list s :
  list_ascii_of_string (string_of_list_ascii s) = s.
Proof. apply list_ascii_of_string_of_list_ascii. Qed.

Lemma strip_digit c0 c s :
  is_digit c = true -> is_digit c0 = false -> strip c0 (c :: s) = None.
Proof.
  intros Hc Hc0. simpl. destruct (Ascii.eqb_spec c c0) as [->|]; [|done].
  congruence.
Qed.

Lemma starts_with_second_digit c' c1 s :
  is_digit c' = false ->
  Forall (fun c => is_digit c = true) s ->
  starts_with [c1; c'] s = false.
Proof.
  intros Hc' Hs. unfold starts_with. apply bool_decide_eq_false.
  destruct s as [|x [|y s]]; simpl; try done.
  intros [= -> ->]. apply Forall_cons in Hs as [_ Hs].
  apply Forall_cons in Hs as [Hy _]. congruence.
Qed.

(** [parseInt] on a minus sign followed by decimal digits that are not all
    zero: the Number value of the negative integer. *)
Lemma parseInt_negative ds :
  Forall (fun c => is_digit c = true) ds ->
  0 < digits_value 0 ds ->
  parseInt_chars ("-"%char :: ds) = round_ratio true (digits_value 0 ds) 1.
Proof.
  intros Hds Hpos. unfold parseInt_chars.
  change (trim_start ("-"%char :: ds)) with ("-"%char :: ds).
  change (take_sign ("-"%char :: ds)) with (true, ds).
  cbv beta iota zeta.
  rewrite !starts_with_second_digit by done. simpl orb. cbv beta iota zeta.
  pose proof (span_digits ds [] Hds I) as Hspan.
  rewrite app_nil_r in Hspan. rewrite Hspan.
  destruct ds as [|c ds]; [simpl in Hpos; lia|].
  destruct (_ =? 0) eqn:E; [apply Z.eqb_eq in E; lia|done].
Qed.

End Scanning.

(** C9: the quantity text ["0"] sets the quantity of the row to 1; a minus
    sign followed by decimal digits that are not all zero (as ["-5"]) sets
    it to the Number value of that negative integer, a negative number.
    The quantity read back from the row of the list is that number. *)
Theorem C9_zero_becomes_one_negative_is_kept (item : InvoiceItem)
    (rows : list InvoiceItem) :
  onQuantityChange item "0" rows = updateItem (id item) f_quantity one rows
  /\ onQuantityChange item "-5" rows
     = updateItem (id item) f_quantity (of_Z (-5)) rows
  /\ (forall ds : list ascii,
        Forall (fun c => is_digit c = true) ds ->
        0 < digits_value 0 ds ->
        onQuantityChange item (string_of_list_ascii ("-"%char :: ds)) rows
        = updateItem (id item) f_quantity
                     (of_Z (- digits_value 0 ds)) rows
        /\ is_negative (of_Z (- digits_value 0 ds)) = true)
  /\ forall i row,
       rows !! i = Some row -> id row = id item ->
       quantity <$> onQuantityChange item "0" rows !! i = Some one
       /\ quantity <$> onQuantityChange item "-5" rows !! i
          = Some (of_Z (-5))
       /\ is_negative (of_Z (-5)) = true
       /\ forall ds : list ascii,
            Forall (fun c => is_digit c = true) ds ->
            0 < digits_value 0 ds ->
            quantity
              <$> onQuantityChange item
                    (string_of_list_ascii ("-"%char :: ds)) rows !! i
            = Some (of_Z (- digits_value 0 ds)).
Proof.
  assert (Hneg : forall ds : list ascii,
            Forall (fun c => is_digit c = true) ds ->
            0 < digits_value 0 ds ->
            onQuantityChange item (string_of_list_ascii ("-"%char :: ds)) rows
            = updateItem (id item) f_quantity
                         (of_Z (- digits_value 0 ds)) rows
            /\ is_negative (of_Z (- digits_value 0 ds)) = true).
  { intros ds Hds Hpos. unfold onQuantityChange, parseInt.
    rewrite list_ascii_of_string_of_list, parseInt_negative by done.
    pose proof (round_ratio_int true _ Hpos) as Hround.
    assert (Hof : of_Z (- digits_value 0 ds)
                  = round_ratio true (digits_value 0 ds) 1).
    { destruct (digits_value 0 ds); [lia|done|lia]. }
    rewrite Hof. unfold or_else.
    destruct (round_ratio true (digits_value 0 ds) 1); try done; by subst. }
  assert (Hread : forall (q : number) i row,
            rows !! i = Some row -> id row = id item ->
            quantity <$> updateItem (id item) f_quantity q rows !! i
            = Some q).
  { intros q i row Hi Hid. rewrite lookup_updateItem, Hi. simpl.
    by rewrite Hid, String.eqb_refl. }
  split; [done|]. split; [done|]. split; [exact Hneg|].
  intros i row Hi Hid.
  split; [by apply (Hread one i row)|].
  split; [by apply (Hread (of_Z (-5)) i row)|].
  split; [done|].
  intros ds Hds Hpos. destruct (Hneg ds Hds Hpos) as [-> _].
  by apply (Hread _ i row).
Qed.

Lemma C9_zero_becomes_one_negative_is_kept_witness :
  quantity <$> onQuantityChange (blank_item "2") "0"
                 [blank_item "1"; blank_item "2"] !! 1%nat = Some one
  /\ quantity <$> onQuantityChange (blank_item "2") "-12"
                    [blank_item "1"; blank_item "2"] !! 1%nat
     = Some (of_Z (-12))
  /\ is_negative (of_Z (-12)) = true.
Proof.
  destruct (C9_zero_becomes_one_negative_is_kept (blank_item "2")
              [blank_item "1"; blank_item "2"]) as (_ & _ & Hneg & Hread).
  destruct (Hread 1%nat (blank_item "2")) as (Hzero & _ & _ & Hstored);
    [reflexivity|reflexivity|].
  split; [exact Hzero|]. split.
  - apply (Hstored ["1"; "2"]%char).
    + repeat constructor.
    + vm_compute. reflexivity.
  - apply (Hneg ["1"; "2"]%char).
    + repeat constructor.
    + vm_compute. reflexivity.
Defined.

(** ** The draft store *)

Section Store.

Lemma loadFromLocalStorage_total st :
  exists v, loadFromLocalStorage st = Normal v.
Proof.
  unfold loadFromLocalStorage, localStorage_getItem.
  destruct (accessible st); simpl; [|by eexists].
  destruct (entries st !! STORAGE_KEY) as [text|]; [|by eexists].
  destruct (String.eqb text ""); [by eexists|].
  destruct (JSON.parse text); by eexists.
Qed.

Lemma saveToLocalStorage_total data st :
  exists st', saveToLocalStorage data st = Normal st'.
Proof.
  unfold saveToLocalStorage.
  destruct (localStorage_setItem _ _ _); by eexists.
Qed.

Lemma mountEffect_absent st s :
  loadFromLocalStorage st = Normal VNull -> mountEffect st s = Normal s.
Proof. unfold mountEffect. by intros ->. Qed.

End Store.

(** C7: [loadFromLocalStorage] never throws. It returns [null] when there
    is no record under the storage key, when the record does not parse, and
    when the storage cannot be read; the mount effect then leaves the state
    at the defaults: the first colour of the palette, one row with an empty
    description, quantity 1 and price 0, the date of the clock reading, an
    empty note and no signature. *)
Theorem C7_load_never_throws (st : Storage) (t : Z) :
  (exists v, loadFromLocalStorage st = Normal v)
  /\ (entries st !! STORAGE_KEY = None ->
      loadFromLocalStorage st = Normal VNull)
  /\ (forall text e,
        entries st !! STORAGE_KEY = Some text ->
        JSON.parse text = Throw e ->
        loadFromLocalStorage st = Normal VNull)
  /\ (accessible st = false -> loadFromLocalStorage st = Normal VNull)
  /\ (loadFromLocalStorage st = Normal VNull ->
      mountEffect st (initial_state t) = Normal (state_of (defaultData t)))
  /\ head PAPER_COLORS = Some ("Cream"%string, paperColor (defaultData t))
  /\ (exists row,
        items (defaultData t) = [row]
        /\ description row = ""%string
        /\ quantity row = of_Z 1
        /\ price row = pos_zero)
  /\ date (defaultData t) = Date.before_T (Date.toISOString t)
  /\ note (defaultData t) = ""%string
  /\ signature (defaultData t) = None.
Proof.
  split; [apply loadFromLocalStorage_total|].
  split; [|split; [|split; [|split]]].
  - intros Hnone. unfold loadFromLocalStorage, localStorage_getItem.
    destruct (accessible st); simpl; [|done]. by rewrite Hnone.
  - intros text e Hsome Hparse.
    unfold loadFromLocalStorage, localStorage_getItem.
    destruct (accessible st); simpl; [|done]. rewrite Hsome.
    destruct (String.eqb text ""); [done|]. by rewrite Hparse.
  - intros Hdenied. unfold loadFromLocalStorage, localStorage_getItem.
    by rewrite Hdenied.
  - apply mountEffect_absent.
  - repeat split; try done. eexists. by repeat split.
Qed.

Lemma C7_load_never_throws_witness :
  loadFromLocalStorage
    {| entries := {[ STORAGE_KEY := "{oops"%string ]}; quota := 5000;
       accessible := true |} = Normal VNull
  /\ mountEffect
       {| entries := {[ STORAGE_KEY := "{oops"%string ]}; quota := 5000;
          accessible := true |} (initial_state 1700000000000)
     = Normal (state_of (defaultData 1700000000000)).
Proof.
  destruct (C7_load_never_throws
              {| entries := {[ STORAGE_KEY := "{oops"%string ]};
                 quota := 5000; accessible := true |} 1700000000000)
    as (_ & _ & Hcorrupt & _ & Hmount & _).
  assert (Hload : loadFromLocalStorage
            {| entries := {[ STORAGE_KEY := "{oops"%string ]};
               quota := 5000; accessible := true |} = Normal VNull).
  { apply (Hcorrupt "{oops"%string SyntaxError); vm_compute; reflexivity. }
  split; [exact Hload | apply Hmount; exact Hload].
Defined.
(** ** Rounding a representable value *)

Section Exact.

Lemma digits2_pos_log2 m : Zpos (digits2_pos m) = Z.log2 (Zpos m) + 1.
Proof.
  induction m as [m IH|m IH|]; simpl digits2_pos; [| |done].
  - rewrite Pos2Z.inj_succ, IH. simpl Z.log2. destruct m; simpl; lia.
  - rewrite Pos2Z.inj_succ, IH. simpl Z.log2. destruct m; simpl; lia.
Qed.

(** [2 ^ L <= a / b] for any large enough common shift [K]. *)
Lemma scaled_le_shift a b L K :
  0 < a -> 0 < b -> Z.max 0 (- L) <= K ->
  (scaled_den b L <= scaled_num a L <-> b * 2 ^ (K + L) <= a * 2 ^ K).
Proof.
  intros Ha Hb HK. unfold scaled_den, scaled_num, pow2.
  set (x := Z.max 0 L). set (y := Z.max 0 (- L)).
  replace (K + L) with (x + (K - y)) by lia.
  replace K with (y + (K - y)) at 2 by lia.
  rewrite !Z.pow_add_r by lia.
  assert (0 < 2 ^ (K - y)) by (apply Z.pow_pos_nonneg; lia).
  split; intros; nia.
Qed.

Lemma pow2_lt_inv x y : 0 <= y -> 2 ^ x < 2 ^ y -> x < y.
Proof.
  intros Hy H. destruct (Z_lt_ge_dec x y) as [|Hge]; [done|].
  assert (2 ^ y <= 2 ^ x) by (apply Z.pow_le_mono_r; lia). lia.
Qed.

(** The binary exponent of [a / b] when [a / b = m * 2 ^ e]. *)
Lemma ilog2_ratio_exact a b m e :
  0 < a -> 0 < b -> 0 < m ->
  scaled_num a e = m * scaled_den b e ->
  ilog2_ratio a b = Z.log2 m + e.
Proof.
  intros Ha Hb Hm Hexact.
  set (mu := Z.log2 m). set (la := Z.log2 a). set (lb := Z.log2 b).
  pose proof (Z.log2_spec m Hm) as [Hm1 Hm2]. fold mu in Hm1, Hm2.
  pose proof (Z.log2_spec a Ha) as [Ha1 Ha2]. fold la in Ha1, Ha2.
  pose proof (Z.log2_spec b Hb) as [Hb1 Hb2]. fold lb in Hb1, Hb2.
  pose proof (Z.log2_nonneg m) as Hmu. fold mu in Hmu.
  pose proof (Z.log2_nonneg a) as Hla. fold la in Hla.
  pose proof (Z.log2_nonneg b) as Hlb. fold lb in Hlb.
  (* a common shift, large enough for every exponent below *)
  set (K := Z.abs e + Z.abs la + Z.abs lb + Z.abs mu + 2).
  assert (HK : a * 2 ^ K = m * b * 2 ^ (K + e)).
  { unfold scaled_num, scaled_den, pow2 in Hexact.
    replace K with (Z.max 0 (- e) + (K - Z.max 0 (- e))) at 1 by lia.
    replace (K + e) with (Z.max 0 e + (K - Z.max 0 (- e))) by lia.
    rewrite !Z.pow_add_r by lia. nia. }
  assert (H2K : 0 < 2 ^ K) by (apply Z.pow_pos_nonneg; lia).
  assert (H2Ke : 0 < 2 ^ (K + e)) by (apply Z.pow_pos_nonneg; lia).
  assert (Hpmu : 0 < 2 ^ mu) by (apply Z.pow_pos_nonneg; lia).
  assert (Hplb : 0 < 2 ^ lb) by (apply Z.pow_pos_nonneg; lia).
  assert (Hlow : 2 ^ mu * 2 ^ lb * 2 ^ (K + e) <= a * 2 ^ K).
  { rewrite HK. apply Z.mul_le_mono_nonneg_r; [lia|].
    apply Z.mul_le_mono_nonneg; lia. }
  assert (Hhigh : a * 2 ^ K < 2 ^ Z.succ mu * 2 ^ Z.succ lb * 2 ^ (K + e)).
  { rewrite HK. apply Z.mul_lt_mono_pos_r; [lia|].
    apply Z.mul_lt_mono_nonneg; lia. }
  assert (Hrange : mu + e <= la - lb <= mu + e + 1).
  { split.
    - assert (2 ^ (mu + lb + (K + e)) < 2 ^ (Z.succ la + K)) as Hlt.
      { rewrite (Z.pow_add_r 2 (mu + lb)), (Z.pow_add_r 2 mu),
          (Z.pow_add_r 2 (Z.succ la)) by lia.
        apply Z.le_lt_trans with (a * 2 ^ K); [done|].
        apply Z.mul_lt_mono_pos_r; lia. }
      apply pow2_lt_inv in Hlt; lia.
    - assert (2 ^ (la + K) < 2 ^ (Z.succ mu + Z.succ lb + (K + e))) as Hlt.
      { rewrite (Z.pow_add_r 2 (Z.succ mu + Z.succ lb)),
          (Z.pow_add_r 2 (Z.succ mu)), (Z.pow_add_r 2 la) by lia.
        apply Z.le_lt_trans with (a * 2 ^ K); [|done].
        apply Z.mul_le_mono_nonneg_r; lia. }
      apply pow2_lt_inv in Hlt; lia. }
  assert (HR : forall L, Z.abs L <= K - 1 ->
                 (scaled_den b L <= scaled_num a L <-> L <= mu + e)).
  { intros L HL. rewrite (scaled_le_shift a b L K) by lia. rewrite HK.
    split.
    - intros Hle. destruct (Z_le_gt_dec L (mu + e)) as [|Hgt]; [done|].
      exfalso.
      assert (2 ^ (Z.succ mu + (K + e)) <= 2 ^ (K + L))
        by (apply Z.pow_le_mono_r; lia).
      rewrite (Z.pow_add_r 2 (Z.succ mu) (K + e)) in H by lia.
      assert (m * 2 ^ (K + e) < 2 ^ (K + L)).
      { apply Z.lt_le_trans with (2 ^ Z.succ mu * 2 ^ (K + e)); [|done].
        apply Z.mul_lt_mono_pos_r; lia. }
      assert (b * (m * 2 ^ (K + e)) < b * 2 ^ (K + L))
        by (apply Z.mul_lt_mono_pos_l; lia).
      lia.
    - intros HL'.
      assert (2 ^ (K + L) <= 2 ^ (mu + (K + e)))
        by (apply Z.pow_le_mono_r; lia).
      rewrite (Z.pow_add_r 2 mu (K + e)) in H by lia.
      assert (2 ^ (K + L) <= m * 2 ^ (K + e)).
      { apply Z.le_trans with (2 ^ mu * 2 ^ (K + e)); [done|].
        apply Z.mul_le_mono_nonneg_r; lia. }
      assert (b * 2 ^ (K + L) <= b * (m * 2 ^ (K + e)))
        by (apply Z.mul_le_mono_nonneg_l; lia).
      lia. }
  unfold ilog2_ratio. fold la lb.
  destruct (scaled_den b (la - lb) <=? scaled_num a (la - lb)) eqn:E.
  - apply Z.leb_le in E. apply HR in E; lia.
  - apply Z.leb_gt in E.
    assert (~ (la - lb <= mu + e)) by (rewrite <- HR by lia; lia). lia.
Qed.

(** Rounding a value that is a binary64 value gives that value. *)
Lemma round_ratio_exact sign a b m e :
  0 < a -> 0 < b ->
  bounded prec emax m e = true ->
  scaled_num a e = Zpos m * scaled_den b e ->
  round_ratio sign a b = S754_finite sign m e.
Proof.
  intros Ha Hb Hbounded Hexact.
  apply andb_prop in Hbounded as [Hcanon Hmax].
  unfold canonical_mantissa, fexp, SpecFloat.emin in Hcanon.
  apply Z.eqb_eq in Hcanon. apply Z.leb_le in Hmax.
  rewrite digits2_pos_log2 in Hcanon. unfold prec, emax in *.
  unfold round_ratio.
  rewrite (ilog2_ratio_exact a b (Zpos m) e) by done.
  replace (Z.max (Z.log2 (Z.pos m) + e - 52) (-1074)) with e by lia.
  rewrite Hexact. unfold round_half_even.
  assert (HD : 0 < scaled_den b e).
  { unfold scaled_den. pose proof (pow2_pos e). lia. }
  rewrite Z.mod_mul, Z.div_mul by lia.
  replace (2 * 0 ?= scaled_den b e) with Lt
    by (symmetry; apply Z.compare_lt_iff; lia).
  assert (Hlt : Zpos m < 2 ^ 53).
  { pose proof (Z.log2_spec (Zpos m) ltac:(lia)) as [_ Hup].
    apply Z.lt_le_trans with (2 ^ Z.succ (Z.log2 (Z.pos m))); [done|].
    apply Z.pow_le_mono_r; lia. }
  destruct (Z.pos m =? 2 ^ 53) eqn:E; [apply Z.eqb_eq in E; lia|].
  destruct (e <=? 971) eqn:E'; [done|apply Z.leb_gt in E'; lia].
Qed.

End Exact.
(** ** The shortest decimal of a binary64 value *)

Section Shortest.

Lemma number_eqb_eq x y : number_eqb x y = true -> x = y.
Proof.
  destruct x as [s|s| |s m e], y as [s'|s'| |s' m' e']; simpl; try done.
  - intros H. apply Bool.eqb_prop in H. by subst.
  - intros H. apply Bool.eqb_prop in H. by subst.
  - intros H. apply andb_prop in H as [H He]. apply andb_prop in H as [Hs Hm].
    apply Bool.eqb_prop in Hs. apply Pos.eqb_eq in Hm. apply Z.eqb_eq in He.
    by subst.
Qed.

Lemma round_ratio_sign sign a b :
  round_ratio sign a b
  = match round_ratio false a b with
    | S754_zero _ => S754_zero sign
    | S754_infinity _ => S754_infinity sign
    | S754_finite _ m e => S754_finite sign m e
    | S754_nan => S754_nan
    end.
Proof.
  unfold round_ratio.
  destruct (if _ =? _ then _ else _) as [M' E'].
  destruct M'; try done. by destruct (_ <=? _).
Qed.

Lemma of_decimal_sign sign D t :
  of_decimal sign D t
  = match of_decimal false D t with
    | S754_zero _ => S754_zero sign
    | S754_infinity _ => S754_infinity sign
    | S754_finite _ m e => S754_finite sign m e
    | S754_nan => S754_nan
    end.
Proof.
  unfold of_decimal. destruct (D =? 0); [done|].
  destruct (0 <=? t); apply round_ratio_sign.
Qed.

(** The exact decimal expansion of a binary64 value reads back as it. *)
Lemma exact_decimal_correct m e :
  bounded prec emax m e = true ->
  0 < fst (exact_decimal m e)
  /\ of_decimal false (fst (exact_decimal m e)) (snd (exact_decimal m e))
     = S754_finite false m e.
Proof.
  intros Hb. unfold exact_decimal.
  destruct (0 <=? e) eqn:He; simpl fst; simpl snd.
  - apply Z.leb_le in He.
    assert (0 < 2 ^ e) by (apply Z.pow_pos_nonneg; lia).
    split; [lia|]. unfold of_decimal.
    destruct (_ =? 0) eqn:E0; [apply Z.eqb_eq in E0; lia|].
    simpl (0 <=? 0). cbv iota.
    apply round_ratio_exact; [lia|lia|done|].
    unfold scaled_num, scaled_den.
    rewrite (pow2_nonpos (- e)), (pow2_nonneg e) by lia.
    change (10 ^ 0) with 1. lia.
  - apply Z.leb_gt in He.
    assert (0 < 5 ^ (- e)) by (apply Z.pow_pos_nonneg; lia).
    assert (0 < 10 ^ (- e)) by (apply Z.pow_pos_nonneg; lia).
    split; [lia|]. unfold of_decimal.
    destruct (_ =? 0) eqn:E0; [apply Z.eqb_eq in E0; lia|].
    destruct (0 <=? e) eqn:He'; [apply Z.leb_le in He'; lia|].
    apply round_ratio_exact; [lia|lia|done|].
    unfold scaled_num, scaled_den.
    rewrite (pow2_nonpos e), (pow2_nonneg (- e)) by lia.
    change 10 with (2 * 5). rewrite Z.pow_mul_l. lia.
Qed.

Lemma exact_num_pos m e : 0 < exact_num m e.
Proof.
  unfold exact_num. destruct (0 <=? e) eqn:He; [|lia].
  apply Z.leb_le in He.
  assert (0 < 2 ^ e) by (apply Z.pow_pos_nonneg; lia). lia.
Qed.

Lemma exact_den_pos e : 0 < exact_den e.
Proof.
  unfold exact_den. destruct (0 <=? e) eqn:He; [lia|].
  apply Z.pow_pos_nonneg; lia.
Qed.

(** A decimal the search accepts reads back as the value. *)
Lemma shortest_at_correct x a b n k d t :
  0 < a -> 0 < b ->
  shortest_at x a b n k = Some (d, t) ->
  0 <= d /\ of_decimal false d t = x.
Proof.
  intros Ha Hb. unfold shortest_at, candidates.
  set (num := if n - k <=? 0 then a * 10 ^ (- (n - k)) else a).
  set (den := if n - k <=? 0 then b else b * 10 ^ (n - k)).
  assert (Hnum : 0 <= num).
  { subst num. destruct (_ <=? 0); [|lia].
    pose proof (Z.pow_nonneg 10 (- (n - k)) ltac:(lia)). nia. }
  assert (Hden : 0 < den).
  { subst den. destruct (n - k <=? 0) eqn:E; [done|].
    apply Z.leb_gt in E.
    assert (0 < 10 ^ (n - k)) by (apply Z.pow_pos_nonneg; lia). nia. }
  assert (Hlo : 0 <= num / den) by (apply Z.div_pos; lia).
  set (lo := num / den) in *.
  assert (Hhi : 0 <= fst (normalise k (lo + 1) (n - k))).
  { unfold normalise. destruct (_ =? _); simpl; [|lia].
    apply Z.pow_nonneg. lia. }
  destruct (normalise k (lo + 1) (n - k)) as [hd ht]. simpl fst in *.
  simpl snd.
  set (okl := number_eqb (of_decimal false lo (n - k)) x && (ndigits lo =? k)).
  set (okh := number_eqb (of_decimal false hd ht) x && (ndigits hd =? k)).
  assert (Hl : okl = true -> 0 <= lo /\ of_decimal false lo (n - k) = x).
  { subst okl. intros H. apply andb_prop in H as [H _].
    by apply number_eqb_eq in H. }
  assert (Hh : okh = true -> 0 <= hd /\ of_decimal false hd ht = x).
  { subst okh. intros H. apply andb_prop in H as [H _].
    by apply number_eqb_eq in H. }
  destruct okl, okh; try done.
  - destruct (_ ?= _); [destruct (Z.even lo)| |]; intros [= <- <-];
      (by apply Hl) || (by apply Hh).
  - intros [= <- <-]. by apply Hl.
  - intros [= <- <-]. by apply Hh.
Qed.

Lemma search_correct fuel x a b n k last :
  0 < a -> 0 < b ->
  (0 <= fst last /\ of_decimal false (fst last) (snd last) = x) ->
  0 <= fst (search fuel x a b n k last)
  /\ of_decimal false (fst (search fuel x a b n k last))
                      (snd (search fuel x a b n k last)) = x.
Proof.
  intros Ha Hb Hlast. revert k.
  induction fuel as [|fuel IH]; intros k; simpl.
  - destruct (shortest_at x a b n k) as [[d t]|] eqn:E; [|done].
    by apply shortest_at_correct in E.
  - destruct (shortest_at x a b n k) as [[d t]|] eqn:E; [|apply IH].
    by apply shortest_at_correct in E.
Qed.

(** The digits and the exponent [Number_toString] prints read back as the
    value. *)
Lemma shortest_decimal_correct m e :
  bounded prec emax m e = true ->
  0 < fst (shortest_decimal m e)
  /\ of_decimal false (fst (shortest_decimal m e))
                      (snd (shortest_decimal m e))
     = S754_finite false m e.
Proof.
  intros Hb. unfold shortest_decimal.
  pose proof (exact_decimal_correct m e Hb) as [Hpos Hexact].
  pose proof (search_correct 16 (S754_finite false m e) (exact_num m e)
                (exact_den e) (decimal_exponent (exact_num m e) (exact_den e))
                1 (exact_decimal m e) (exact_num_pos m e) (exact_den_pos e)
                ltac:(split; [lia|done])) as [Hge Hval].
  split; [|done].
  destruct (Z.eq_dec (fst (search 16 (S754_finite false m e) (exact_num m e)
                (exact_den e) (decimal_exponent (exact_num m e) (exact_den e))
                1 (exact_decimal m e))) 0) as [H0|]; [|lia].
  rewrite H0 in Hval. done.
Qed.

End Shortest.
(** ** Reading decimal literals *)

Section Literals.

Implicit Types (ip fp rest s : list ascii) (ex : option (bool * list ascii)).

Lemma ends_number_head rest :
  ends_number rest = true ->
  match rest with c :: _ => is_digit c = false | [] => True end.
Proof.
  destruct rest as [|c rest]; [done|]. simpl. intros H.
  apply negb_true_iff in H. by destruct (is_digit c).
Qed.

Lemma ends_number_strip_point rest :
  ends_number rest = true -> strip "." rest = None.
Proof.
  destruct rest as [|c rest]; [done|]. simpl. intros H.
  apply negb_true_iff in H. destruct (c =? ".")%char; [|done].
  by rewrite orb_true_r in H.
Qed.

Lemma ends_number_no_exponent rest :
  ends_number rest = true ->
  match rest with
  | c :: _ => (c =? "e")%char || (c =? "E")%char = false
  | [] => True
  end.
Proof.
  destruct rest as [|c rest]; [done|]. simpl. intros H.
  apply negb_true_iff in H.
  destruct (c =? "e")%char, (c =? "E")%char; try done;
    by rewrite ?orb_true_r in H.
Qed.

Lemma scan_exponent_text eneg eds rest :
  digits_only eds -> eds <> [] -> ends_number rest = true ->
  scan_exponent ("e"%char :: (if eneg : bool then "-"%char else "+"%char)
                 :: eds ++ rest)
  = Some (exponent_value (Some (eneg, eds)), rest).
Proof.
  intros Hds Hne Hrest. unfold scan_exponent. simpl orb. cbv iota.
  assert (Hsign : take_sign ((if eneg then "-"%char else "+"%char)
                             :: eds ++ rest) = (eneg, eds ++ rest))
    by (by destruct eneg).
  rewrite Hsign.
  rewrite span_digits by (done || by apply ends_number_head).
  destruct eds; [done|]. by destruct eneg.
Qed.

(** [JSON.parse] reads a literal as the Number value of its decimal. *)
Lemma parse_number_text neg ip fp ex rest :
  literal_parts ip fp ex -> ends_number rest = true ->
  JSON.parse_number (number_text neg ip fp ex ++ rest)
  = Some (of_decimal neg (digits_value (digits_value 0 ip) fp)
                     (exponent_value ex - Z.of_nat (length fp)), rest).
Proof.
  intros (Hip & (c & ip' & -> & Hzero) & Hfp & Hex) Hrest.
  unfold number_text. rewrite <- !app_assoc.
  set (etext := match ex with
                | Some (eneg, eds) =>
                    "e"%char :: (if eneg then "-"%char else "+"%char) :: eds
                | None => []
                end).
  set (ftext := match fp with [] => [] | _ :: _ => "."%char :: fp end).
  assert (Hc : is_digit c = true) by (by apply Forall_cons in Hip as [? _]).
  unfold JSON.parse_number.
  assert (Hstrip : (match strip "-" ((if neg then ["-"%char] else [])
                                     ++ (c :: ip') ++ ftext ++ etext ++ rest)
                    with
                    | Some s' => (true, s')
                    | None => (false, (if neg then ["-"%char] else [])
                                      ++ (c :: ip') ++ ftext ++ etext ++ rest)
                    end) = (neg, (c :: ip') ++ ftext ++ etext ++ rest)).
  { destruct neg; [done|]. simpl app. by rewrite strip_digit. }
  rewrite Hstrip. clear Hstrip.
  (* the exponent and what follows it *)
  assert (Hexp : (match etext ++ rest with
                  | c0 :: _ =>
                      if (c0 =? "e")%char || (c0 =? "E")%char
                      then scan_exponent (etext ++ rest)
                      else Some (0, etext ++ rest)
                  | [] => Some (0, etext ++ rest)
                  end) = Some (exponent_value ex, rest)
                 /\ match etext ++ rest with
                    | c0 :: _ => is_digit c0 = false
                    | [] => True
                    end
                 /\ (fp = [] -> strip "." (etext ++ rest) = None)).
  { subst etext. destruct ex as [[eneg eds]|].
    - destruct Hex as [Heds Hne]. split; [|by split].
      simpl app. simpl orb. cbv iota. by apply scan_exponent_text.
    - simpl app. split; [|split].
      + pose proof (ends_number_no_exponent rest Hrest) as H.
        destruct rest as [|c0 rest']; [done|]. by rewrite H.
      + by apply ends_number_head.
      + intros _. by apply ends_number_strip_point. }
  destruct Hexp as (Hexp & Hehead & Hepoint).
  (* the fraction *)
  assert (Hfrac : match ftext ++ etext ++ rest with
                  | c0 :: _ => is_digit c0 = false
                  | [] => True
                  end
                  /\ (match strip "." (ftext ++ etext ++ rest) with
                      | Some s1' =>
                          let '(fp0, s2) := span is_digit s1' in
                          match fp0 with
                          | [] => None
                          | _ => Some (fp0, s2)
                          end
                      | None => Some ([], ftext ++ etext ++ rest)
                      end) = Some (fp, etext ++ rest)).
  { subst ftext. destruct fp as [|f fp'].
    - simpl app. split; [done|]. by rewrite Hepoint.
    - split; [done|].
      change (strip "." (("."%char :: f :: fp') ++ etext ++ rest))
        with (Some ((f :: fp') ++ etext ++ rest)).
      cbv beta iota. by rewrite span_digits. }
  destruct Hfrac as (Hfhead & Hfrac).
  rewrite span_digits by done.
  assert (Hlead : (c =? "0")%char && negb (bool_decide (ip' = [])) = false).
  { destruct (Ascii.eqb_spec c "0") as [Hc0|]; [|done].
    rewrite (Hzero Hc0). done. }
  rewrite Hlead, Hfrac. simpl. rewrite Hexp. done.
Qed.

End Literals.
(** ** Number::toString reads back *)

Section ToStringReadsBack.

Implicit Types (ds rest : list ascii).

Lemma digits_value_nil acc : digits_value acc [] = acc.
Proof. done. Qed.

Lemma digits_only_take n ds : digits_only ds -> digits_only (take n ds).
Proof. apply Forall_take. Qed.

Lemma digits_only_drop n ds : digits_only ds -> digits_only (drop n ds).
Proof. apply Forall_drop. Qed.

Lemma of_decimal_scale sign d j :
  0 < d -> 0 <= j -> of_decimal sign (d * 10 ^ j) 0 = of_decimal sign d j.
Proof.
  intros Hd Hj. unfold of_decimal.
  assert (0 < 10 ^ j) by (apply Z.pow_pos_nonneg; lia).
  destruct (d * 10 ^ j =? 0) eqn:E; [apply Z.eqb_eq in E; nia|].
  destruct (d =? 0) eqn:E'; [apply Z.eqb_eq in E'; lia|].
  simpl (0 <=? 0). cbv iota.
  destruct (0 <=? j) eqn:Ej; [|apply Z.leb_gt in Ej; lia].
  f_equal. change (10 ^ 0) with 1. lia.
Qed.

(** The text [Number_toString] lays out for the digits of [d] is a
    literal of the decimal [d * 10 ^ (n - k)], [k] being the number of
    digits. *)
Lemma format_digits_text sign d n :
  0 < d ->
  exists ip fp ex,
    format_digits (to_digits d) n = number_text false ip fp ex
    /\ literal_parts ip fp ex
    /\ of_decimal sign (digits_value (digits_value 0 ip) fp)
                  (exponent_value ex - Z.of_nat (length fp))
       = of_decimal sign d (n - Z.of_nat (length (to_digits d))).
Proof.
  intros Hd.
  pose proof (to_digits_head d Hd) as (c & tl & Hds & Hc).
  pose proof (to_digits_digits d ltac:(lia)) as Hdigits.
  pose proof (to_digits_value d ltac:(lia)) as Hvalue.
  assert (Hcd : is_digit c = true /\ digits_only tl).
  { rewrite Hds in Hdigits. by apply Forall_cons in Hdigits. }
  destruct Hcd as [Hcd Htl].
  fold (digits_only (to_digits d)) in Hdigits.
  assert (Hc0 : c <> "0"%char) by (intros ->; change (digit_val "0"%char) with 0 in Hc; lia).
  unfold format_digits. set (ds := to_digits d) in *.
  set (k := Z.of_nat (length ds)).
  assert (Hk : 1 <= k) by (subst k; rewrite Hds; simpl; lia).
  destruct ((k <=? n) && (n <=? 21)) eqn:E1.
  { apply andb_prop in E1 as [E1 _]. apply Z.leb_le in E1.
    exists (ds ++ zeros (n - k)), [], None. split; [|split].
    - unfold number_text. simpl. by rewrite !app_nil_r.
    - split; [|split; [|split]]; try done.
      + apply Forall_app. split; [done|apply zeros_digits].
      + exists c, (tl ++ zeros (n - k)). rewrite Hds. split; [done|].
        by intros ->.
      + constructor.
    - rewrite digits_value_nil, digits_value_app, Hvalue.
      rewrite digits_value_zeros by lia. simpl length. simpl exponent_value.
      by apply of_decimal_scale; lia. }
  destruct ((0 <? n) && (n <=? 21)) eqn:E2.
  { apply andb_prop in E2 as [E2 E2']. apply Z.ltb_lt in E2.
    assert (Hnk : n < k).
    { apply andb_false_iff in E1 as [E1|E1];
        [by apply Z.leb_gt in E1 | congruence]. }
    exists (take (Z.to_nat n) ds), (drop (Z.to_nat n) ds), None.
    assert (Hdrop : drop (Z.to_nat n) ds <> []).
    { intros Hnil. apply (f_equal length) in Hnil.
      rewrite length_drop in Hnil. simpl in Hnil. lia. }
    split; [|split].
    - unfold number_text. simpl.
      destruct (drop (Z.to_nat n) ds) eqn:Ed; [done|].
      by rewrite app_nil_r.
    - split; [|split; [|split]]; try done.
      + by apply digits_only_take.
      + rewrite Hds. destruct (Z.to_nat n) as [|j] eqn:En; [lia|].
        simpl. exists c, (take j tl). split; [done|]. by intros ->.
      + by apply digits_only_drop.
    - rewrite <- digits_value_app, take_drop, Hvalue.
      rewrite length_drop. simpl exponent_value. f_equal. lia. }
  destruct ((-6 <? n) && (n <=? 0)) eqn:E3.
  { apply andb_prop in E3 as [E3 E3']. apply Z.leb_le in E3'.
    exists ["0"%char], (zeros (- n) ++ ds), None.
    assert (Hne : zeros (- n) ++ ds <> []).
    { rewrite Hds. by destruct (zeros (- n)). }
    split; [|split].
    - unfold number_text. simpl.
      destruct (zeros (- n) ++ ds) eqn:Ed; [done|].
      by rewrite app_nil_r.
    - split; [|split; [|split]]; try done.
      + by repeat constructor.
      + by exists "0"%char, [].
      + apply Forall_app. split; [apply zeros_digits|done].
    - change (digits_value 0 ["0"%char]) with 0.
      rewrite digits_value_app, digits_value_zeros by lia.
      rewrite Z.mul_0_l, Hvalue, length_app.
      simpl exponent_value. f_equal.
      pose proof (zeros_length (- n) ltac:(lia)). lia. }
  (* the exponential notation *)
  set (e := n - 1).
  exists [c], tl, (Some (negb (0 <=? e), to_digits (Z.abs e))).
  split; [|split].
  - rewrite Hds. unfold number_text. simpl.
    destruct tl as [|c' tl']; destruct (0 <=? e); simpl;
      by rewrite ?app_nil_r, <- ?app_assoc.
  - split; [|split; [|split]].
    + by repeat constructor.
    + by exists c, [].
    + done.
    + split; [apply to_digits_digits; lia|apply to_digits_nonempty].
  - change (digits_value (digits_value 0 [c]) tl)
      with (digits_value 0 (c :: tl)).
    rewrite <- Hds, Hvalue. f_equal.
    unfold exponent_value. subst k. rewrite Hds. simpl length.
    destruct (0 <=? e) eqn:Ee; simpl negb; cbv iota;
      rewrite to_digits_value by lia; [apply Z.leb_le in Ee|apply Z.leb_gt in Ee];
      lia.
Qed.

End ToStringReadsBack.
Section NumberText.

(** The text of a finite number is a literal whose decimal has the number
    as its Number value ([-0] prints as [0]). *)
Lemma Number_toString_text x :
  valid x = true -> is_finite x = true ->
  exists neg ip fp ex,
    Number_toString_chars x = number_text neg ip fp ex
    /\ literal_parts ip fp ex
    /\ of_decimal neg (digits_value (digits_value 0 ip) fp)
                  (exponent_value ex - Z.of_nat (length fp))
       = (if is_zero x then pos_zero else x).
Proof.
  intros Hvalid Hfin. destruct x as [s|s| |s m e]; try done.
  - exists false, ["0"%char], [], None. split; [done|]. split; [|done].
    split; [by repeat constructor|]. split; [by exists "0"%char, []|].
    split; [constructor|done].
  - pose proof (shortest_decimal_correct m e Hvalid) as [Hpos Hval].
    unfold Number_toString_chars.
    destruct (shortest_decimal m e) as [d t]. simpl fst in *. simpl snd in *.
    destruct (format_digits_text s d
                (Z.of_nat (length (to_digits d)) + t) Hpos)
      as (ip & fp & ex & Htext & Hparts & Hdec).
    exists s, ip, fp, ex. split; [|split; [done|]].
    + rewrite Htext. unfold number_text. by destruct s.
    + rewrite Hdec. simpl is_zero. cbv iota.
      replace (Z.of_nat (length (to_digits d)) + t
               - Z.of_nat (length (to_digits d))) with t by lia.
      rewrite of_decimal_sign, Hval. done.
Qed.

(** [JSON.parse] reads the text of a finite number back as the number. *)
Lemma parse_number_toString x rest :
  valid x = true -> is_finite x = true -> ends_number rest = true ->
  JSON.parse_number (Number_toString_chars x ++ rest)
  = Some (if is_zero x then pos_zero else x, rest).
Proof.
  intros Hvalid Hfin Hrest.
  destruct (Number_toString_text x Hvalid Hfin)
    as (neg & ip & fp & ex & -> & Hparts & <-).
  by apply parse_number_text.
Qed.

End NumberText.
(** ** Reading JSON texts *)

Section JsonUnfold.

Import JSON.

Implicit Types (s rest : list ascii)
  (pv : list ascii -> option (jsval jsstring * list ascii)).

Lemma jsval_ind {str : Type} (P : jsval str -> Prop) :
  P VUndefined -> P VNull -> (forall b, P (VBool b)) ->
  (forall n, P (VNumber n)) -> (forall str, P (VString str)) ->
  (forall elems, Forall P elems -> P (VArray elems)) ->
  (forall props, Forall (fun kv => P (snd kv)) props -> P (VObject props)) ->
  forall v, P v.
Proof.
  intros Hu Hn Hb Hnum Hs Harr Hobj. fix IH 1.
  intros [ | |b|n|text|elems|props];
    [apply Hu|apply Hn|apply Hb|apply Hnum|apply Hs| |].
  - apply Harr. induction elems as [|e elems IHe]; constructor; [apply IH|done].
  - apply Hobj. induction props as [|kv props IHp]; constructor;
      [apply IH|done].
Qed.

Lemma parse_elements_eq pv fuel s :
  parse_elements pv (S fuel) s
  = match skip_ws s with
    | c :: s1 =>
        if (c =? "]")%char then Some ([], s1)
        else if (c =? ",")%char then
          '(v, s2) ← pv s1;
          '(vs, rest) ← parse_elements pv fuel s2;
          Some (v :: vs, rest)
        else None
    | [] => None
    end.
Proof.
  simpl. destruct (skip_ws s) as [|c s1]; [done|].
  destruct c as [[] [] [] [] [] [] [] []]; reflexivity.
Qed.

Lemma parse_members_eq pv fuel acc s :
  parse_members pv (S fuel) acc s
  = match skip_ws s with
    | c :: s1 =>
        if (c =? "}")%char then Some (acc, s1)
        else if (c =? ",")%char then
          '(k, v, s2) ← parse_member pv s1;
          parse_members pv fuel (set_prop k v acc) s2
        else None
    | [] => None
    end.
Proof.
  simpl. destruct (skip_ws s) as [|c s1]; [done|].
  destruct c as [[] [] [] [] [] [] [] []]; reflexivity.
Qed.

Lemma parse_value_object fuel s1 :
  parse_value (S fuel) ("{"%char :: s1)
  = match strip "}" (skip_ws s1) with
    | Some rest => Some (VObject [], rest)
    | None =>
        '(k, v, s2) ← parse_member (parse_value fuel) s1;
        '(ps, rest) ← parse_members (parse_value fuel) fuel [(k, v)] s2;
        Some (VObject ps, rest)
    end.
Proof.
  cbn [parse_value]. change (skip_ws ("{"%char :: s1)) with ("{"%char :: s1).
  cbv beta iota. change ("{" =? "{")%char with true. cbv iota.
  destruct (skip_ws s1) as [|c s2]; [done|].
  destruct c as [[] [] [] [] [] [] [] []]; reflexivity.
Qed.

Lemma parse_value_array fuel s1 :
  parse_value (S fuel) ("["%char :: s1)
  = match strip "]" (skip_ws s1) with
    | Some rest => Some (VArray [], rest)
    | None =>
        '(v, s2) ← parse_value fuel s1;
        '(vs, rest) ← parse_elements (parse_value fuel) fuel s2;
        Some (VArray (v :: vs), rest)
    end.
Proof.
  cbn [parse_value]. change (skip_ws ("["%char :: s1)) with ("["%char :: s1).
  cbv beta iota. change ("[" =? "{")%char with false.
  change ("[" =? "[")%char with true. cbv iota.
  destruct (skip_ws s1) as [|c s2]; [done|].
  destruct c as [[] [] [] [] [] [] [] []]; reflexivity.
Qed.

End JsonUnfold.
Section JsonStrings.

Import JSON.

Implicit Types (s rest : list ascii).

Lemma parse_string_body_char c fuel tail :
  parse_string_body (S fuel) (quote_char c ++ tail)
  = '(cs, rest) ← parse_string_body fuel tail;
    Some (N_of_ascii c :: cs, rest).
Proof. destruct c as [[] [] [] [] [] [] [] []]; reflexivity. Qed.

(** A quoted string reads back as the code units of the string. *)
Lemma parse_string_body_quote s fuel rest :
  (length s < fuel)%nat ->
  parse_string_body fuel (concat (map quote_char s) ++ quote_mark :: rest)
  = Some (map N_of_ascii s, rest).
Proof.
  revert fuel. induction s as [|c s IH]; intros fuel Hfuel.
  - destruct fuel; [lia|]. reflexivity.
  - destruct fuel; [simpl in Hfuel; lia|].
    simpl concat. rewrite <- app_assoc, parse_string_body_char.
    rewrite IH by (simpl in Hfuel; lia). done.
Qed.

Lemma units_of_inj : Inj (=) (=) units_of.
Proof.
  intros a b Heq. unfold units_of in Heq.
  rewrite <- (string_of_list_ascii_of_string a),
          <- (string_of_list_ascii_of_string b).
  f_equal. revert Heq. generalize (list_ascii_of_string b).
  induction (list_ascii_of_string a) as [|x xs IH]; intros [|y ys]; simpl;
    try done.
  intros [= Hxy Hrest]. f_equal; [|by apply IH].
  by rewrite <- (ascii_N_embedding x), <- (ascii_N_embedding y), Hxy.
Qed.

Lemma jsstring_eqb_eq (a b : jsstring) : jsstring_eqb a b = true <-> a = b.
Proof.
  revert b. induction a as [|x a IH]; intros [|y b]; simpl; try done.
  rewrite andb_true_iff, N.eqb_eq, IH. split; [by intros [-> ->]|].
  by intros [= -> ->].
Qed.

Lemma quote_char_nonempty c : (1 <= length (quote_char c))%nat.
Proof. destruct c as [[] [] [] [] [] [] [] []]; vm_compute; lia. Qed.

Lemma length_quoted s : (length s <= length (concat (map quote_char s)))%nat.
Proof.
  induction s as [|c s IH]; simpl; [lia|].
  rewrite length_app. pose proof (quote_char_nonempty c). lia.
Qed.

End JsonStrings.
Section JsonValues.

Import JSON.

Implicit Types (s t rest : list ascii) (v img : jsval string).

Lemma value_start_facts c :
  value_start c = true ->
  is_ws c = false /\ (c =? "]")%char = false /\ (c =? "}")%char = false.
Proof.
  destruct c as [[] [] [] [] [] [] [] []]; vm_compute; intros H;
    try discriminate H; done.
Qed.

Lemma skip_ws_start c s : is_ws c = false -> skip_ws (c :: s) = c :: s.
Proof. intros H. simpl. by rewrite H. Qed.

Lemma literal_word word (w : jsval jsstring) rest :
  literal word w (list_ascii_of_string word ++ rest) = Some (w, rest).
Proof.
  unfold literal, starts_with.
  rewrite take_app_length, drop_app_length. by rewrite bool_decide_true.
Qed.

Lemma parse_value_number fuel c s :
  is_digit c = true \/ c = "-"%char ->
  parse_value (S fuel) (c :: s)
  = '(n, rest) ← parse_number (c :: s); Some (VNumber n, rest).
Proof.
  intros H.
  destruct c as [[] [] [] [] [] [] [] []];
    (destruct H as [H|H]; [vm_compute in H|]; try discriminate H);
    reflexivity.
Qed.

Lemma parse_value_string fuel s1 :
  parse_value (S fuel) (quote_mark :: s1)
  = '(cs, rest) ← parse_string_body (length s1) s1;
    Some (VString cs, rest).
Proof. reflexivity. Qed.

Lemma join_cons (p : list ascii) (ps : list (list ascii)) :
  join (p :: ps) = p ++ concat (map (cons ","%char) ps).
Proof.
  revert p. induction ps as [|q ps IH]; intros p; simpl.
  - by rewrite app_nil_r.
  - f_equal. f_equal. apply IH.
Qed.

Lemma length_join_count (ps : list (list ascii)) :
  (length ps <= S (length (join ps)))%nat.
Proof.
  destruct ps as [|p ps]; [simpl; lia|]. rewrite join_cons, length_app.
  induction ps as [|q ps IH]; simpl in *; [lia|].
  rewrite length_app. lia.
Qed.

Lemma length_join_elem (p : list ascii) (ps : list (list ascii)) :
  p ∈ ps -> (length p <= length (join ps))%nat.
Proof.
  destruct ps as [|q ps]; [by intros ?%elem_of_nil|].
  rewrite join_cons, length_app. intros [->|Hin]%elem_of_cons; [lia|].
  induction ps as [|r ps IH]; [by apply elem_of_nil in Hin|].
  simpl. rewrite length_app. apply elem_of_cons in Hin as [->|Hin]; [lia|].
  specialize (IH Hin). lia.
Qed.

Lemma number_text_start neg ip fp ex :
  literal_parts ip fp ex ->
  exists c tl, number_text neg ip fp ex = c :: tl
               /\ (is_digit c = true \/ c = "-"%char).
Proof.
  intros (Hip & (c & ip' & -> & _) & _). unfold number_text.
  destruct neg; simpl.
  - eexists _, _. split; [done|]. by right.
  - eexists _, _. split; [done|]. left. by apply Forall_cons in Hip as [? _].
Qed.

Lemma number_start_value_start c :
  is_digit c = true \/ c = "-"%char -> value_start c = true.
Proof. unfold value_start. intros [->| ->]; done. Qed.

(** The text of a value starts with a character that opens a value. *)
Lemma serialize_start v t :
  well_formed v -> serialize v = Some t ->
  exists c tl, t = c :: tl /\ value_start c = true.
Proof.
  intros Hwf.
  destruct v as [ | |[]|n|str|elems|props]; simpl; try done;
    try (intros [= <-]; by eexists _, _).
  intros [= <-]. destruct (is_finite n) eqn:Hfin; [|by eexists _, _].
  destruct (Number_toString_text n Hwf Hfin)
    as (neg & ip & fp & ex & -> & Hparts & _).
  destruct (number_text_start neg ip fp ex Hparts) as (c & tl & -> & Hc).
  exists c, tl. split; [done|]. by apply number_start_value_start.
Qed.

End JsonValues.
Section JsonContainers.

Import JSON.

Implicit Types (s t rest : list ascii) (v img : jsval string)
  (pv : list ascii -> option (jsval jsstring * list ascii)).

Lemma ends_number_elements (ts : list (list ascii)) close rest :
  close = "]"%char \/ close = "}"%char ->
  ends_number (concat (map (cons ","%char) ts) ++ close :: rest) = true.
Proof. intros [-> | ->]; by destruct ts. Qed.

(** The elements of an array after the first read back one by one. *)
Lemma parse_elements_join pv fuel
    (parts : list (list ascii * jsval jsstring)) rest :
  Forall (fun p => forall rest', ends_number rest' = true ->
                     pv (fst p ++ rest') = Some (snd p, rest')) parts ->
  (length parts < fuel)%nat ->
  parse_elements pv fuel
    (concat (map (cons ","%char) (map fst parts)) ++ "]"%char :: rest)
  = Some (map snd parts, rest).
Proof.
  intros Hparts. revert fuel.
  induction Hparts as [|[t w] parts Hp _ IH]; intros fuel Hfuel.
  - destruct fuel; [lia|]. reflexivity.
  - destruct fuel; [simpl in Hfuel; lia|].
    assert (Htext :
      concat (map (cons ","%char) (map fst ((t, w) :: parts)))
        ++ "]"%char :: rest
      = ","%char :: t ++ (concat (map (cons ","%char) (map fst parts))
                          ++ "]"%char :: rest)).
    { simpl. by rewrite <- app_assoc. }
    rewrite Htext, parse_elements_eq.
    change (skip_ws (","%char :: ?s)) with (","%char :: s).
    change ("," =? "]")%char with false. change ("," =? ",")%char with true.
    cbv iota. simpl in Hp.
    rewrite Hp by (apply ends_number_elements; by left). simpl.
    rewrite IH by (simpl in Hfuel; lia). done.
Qed.

Lemma set_prop_fresh (k : jsstring) (w : jsval jsstring)
    (acc : list (jsstring * jsval jsstring)) :
  k ∉ map fst acc -> set_prop k w acc = acc ++ [(k, w)].
Proof.
  induction acc as [|[k' w'] acc IH]; simpl; [done|].
  intros Hnotin. apply not_elem_of_cons in Hnotin as [Hne Hnotin].
  destruct (jsstring_eqb k' k) eqn:E;
    [by apply jsstring_eqb_eq in E; subst|].
  by rewrite IH.
Qed.

(** A member reads back as its key and the value of its text. *)
Lemma parse_member_text pv (k : string) t (w : jsval jsstring) rest :
  pv (t ++ rest) = Some (w, rest) ->
  parse_member pv (quote k ++ ":"%char :: t ++ rest)
  = Some (units_of k, w, rest).
Proof.
  intros Hpv.
  assert (Htext : quote k ++ ":"%char :: t ++ rest
                  = quote_mark
                    :: (concat (map quote_char (list_ascii_of_string k))
                        ++ quote_mark :: ":"%char :: t ++ rest)).
  { unfold quote, quote_chars. simpl. by rewrite <- app_assoc. }
  rewrite Htext. unfold parse_member.
  change (skip_ws (quote_mark :: ?s)) with (quote_mark :: s).
  change (strip quote_mark (quote_mark :: ?s)) with (Some s).
  cbn [mbind option_bind].
  rewrite parse_string_body_quote.
  - cbn [mbind option_bind].
    change (skip_ws (":"%char :: t ++ rest)) with (":"%char :: t ++ rest).
    change (strip ":" (":"%char :: t ++ rest)) with (Some (t ++ rest)).
    cbn [mbind option_bind]. rewrite Hpv. cbn [mbind option_bind].
    done.
  - rewrite length_app. simpl.
    pose proof (length_quoted (list_ascii_of_string k)). lia.
Qed.

End JsonContainers.
Section JsonRoundTrip.

Import JSON.

Implicit Types (s t rest : list ascii) (v img : jsval string)
  (pv : list ascii -> option (jsval jsstring * list ascii)).

(** The members of an object after the first read back one by one. *)
Lemma parse_members_join pv fuel acc
    (parts : list (string * list ascii * jsval jsstring)) rest :
  Forall (fun p => forall rest', ends_number rest' = true ->
                     pv (snd (fst p) ++ rest') = Some (snd p, rest')) parts ->
  (length parts < fuel)%nat ->
  NoDup (map fst acc ++ map (fun p => units_of (fst (fst p))) parts) ->
  parse_members pv fuel acc
    (concat (map (cons ","%char) (map member_text parts)) ++ "}"%char :: rest)
  = Some (acc ++ map (fun p => (units_of (fst (fst p)), snd p)) parts, rest).
Proof.
  intros Hparts. revert fuel acc.
  induction Hparts as [|[[k t] w] parts Hp _ IH]; intros fuel acc Hfuel Hnd.
  - destruct fuel; [lia|]. simpl. by rewrite app_nil_r.
  - destruct fuel; [simpl in Hfuel; lia|].
    assert (Htext :
      concat (map (cons ","%char) (map member_text ((k, t, w) :: parts)))
        ++ "}"%char :: rest
      = ","%char :: quote k ++ ":"%char :: t
          ++ (concat (map (cons ","%char) (map member_text parts))
              ++ "}"%char :: rest)).
    { simpl. unfold member_text at 1. simpl.
      by rewrite <- !app_assoc. }
    rewrite Htext, parse_members_eq.
    change (skip_ws (","%char :: ?s)) with (","%char :: s).
    change ("," =? "}")%char with false. change ("," =? ",")%char with true.
    cbv iota. simpl in Hp.
    rewrite (parse_member_text pv k t w)
      by (apply Hp, ends_number_elements; by right).
    cbn [mbind option_bind].
    simpl in Hnd. apply NoDup_app in Hnd as (Hacc & Hdisj & Hparts').
    apply NoDup_cons in Hparts' as [Hk Hparts'].
    assert (Hfresh : units_of k ∉ map fst acc).
    { intros Hin. apply (Hdisj _ Hin). by left. }
    rewrite set_prop_fresh by done.
    rewrite IH.
    + by rewrite <- app_assoc.
    + simpl in Hfuel. lia.
    + rewrite map_app. simpl. rewrite <- app_assoc. simpl.
      apply NoDup_app. split; [done|]. split.
      * intros x Hx [->|Hx']%elem_of_cons; [done|]. apply (Hdisj x Hx).
        by right.
      * by apply NoDup_cons.
Qed.

Lemma serialize_none v : serialize v = None -> v = VUndefined.
Proof. destruct v as [ | |[]| | | | ]; done. Qed.

Lemma json_image_none v : json_image v = None -> v = VUndefined.
Proof. by destruct v. Qed.

Lemma well_formed_array elems :
  well_formed (VArray elems) <-> Forall well_formed elems.
Proof.
  simpl. induction elems as [|e elems IH]; [by split|].
  rewrite Forall_cons. by rewrite IH.
Qed.

Lemma well_formed_object props :
  well_formed (VObject props)
  <-> NoDup (map fst props) /\ Forall (fun kv => well_formed (snd kv)) props.
Proof.
  simpl. apply and_iff_compat_l.
  induction props as [|kv props IH]; [by split|].
  rewrite Forall_cons. by rewrite IH.
Qed.

Lemma object_parts_texts props :
  omap (fun kv => match serialize (snd kv) with
                  | Some s => Some (quote (fst kv) ++ ":"%char :: s)
                  | None => None
                  end) props
  = map member_text (object_parts props).
Proof.
  unfold object_parts.
  induction props as [|[k v] props IH]; [done|]. cbn.
  destruct (serialize v) as [t|] eqn:Es.
  - destruct (json_image v) as [img|] eqn:Ei.
    + cbn. f_equal. exact IH.
    + apply json_image_none in Ei. by subst.
  - exact IH.
Qed.

Lemma object_parts_images props :
  map (fun kv => (units_of (fst kv), widen (snd kv)))
    (omap (fun kv => match json_image (snd kv) with
                     | Some v' => Some (fst kv, v')
                     | None => None
                     end) props)
  = map (fun p => (units_of (fst (fst p)), snd p)) (object_parts props).
Proof.
  unfold object_parts.
  induction props as [|[k v] props IH]; [done|]. cbn.
  destruct (json_image v) as [img|] eqn:Ei.
  - destruct (serialize v) as [t|] eqn:Es.
    + cbn. f_equal. exact IH.
    + apply serialize_none in Es. by subst.
  - destruct (serialize v); exact IH.
Qed.

Lemma object_parts_narrow_keys props :
  NoDup (map fst props) ->
  NoDup (map (fun p => fst (fst p)) (object_parts props)).
Proof.
  unfold object_parts.
  induction props as [|[k v] props IH]; cbn; [done|].
  intros [Hk Hnd]%NoDup_cons.
  destruct (serialize v), (json_image v); cbn; try by apply IH.
  apply NoDup_cons. split; [|by apply IH].
  intros Hin. apply Hk.
  apply list_elem_of_fmap in Hin as ([[k' t'] img'] & -> & Hin). simpl.
  apply list_elem_of_omap in Hin as ([k'' v''] & Hin & Heq). simpl in Heq.
  destruct (serialize v''), (json_image v''); try done.
  injection Heq as -> _ _. apply list_elem_of_fmap. by exists (k', v'').
Qed.

Lemma object_parts_keys props :
  NoDup (map fst props) ->
  NoDup (map (fun p => units_of (fst (fst p))) (object_parts props)).
Proof.
  intros Hnd%object_parts_narrow_keys.
  change (map (fun p => units_of (fst (fst p))) (object_parts props))
    with (units_of ∘ (fun p => fst (fst p)) <$> object_parts props).
  rewrite list_fmap_compose.
  pose proof units_of_inj as Hinj. apply (NoDup_fmap_2 units_of). exact Hnd.
Qed.

End JsonRoundTrip.
Section JsonMain.

Import JSON.

Implicit Types (s t rest : list ascii) (v img : jsval string).

Lemma parse_value_null fuel rest :
  parse_value (S fuel) (list_ascii_of_string "null" ++ rest)
  = Some (VNull, rest).
Proof.
  change (parse_value (S fuel) (list_ascii_of_string "null" ++ rest))
    with (literal "null" VNull (list_ascii_of_string "null" ++ rest)).
  apply literal_word.
Qed.

Lemma parse_value_bool fuel (b : bool) rest :
  parse_value (S fuel)
    (list_ascii_of_string (if b then "true" else "false") ++ rest)
  = Some (VBool b, rest).
Proof.
  destruct b.
  - change (parse_value (S fuel) (list_ascii_of_string "true" ++ rest))
      with (literal "true" (VBool true) (list_ascii_of_string "true" ++ rest)).
    apply literal_word.
  - change (parse_value (S fuel) (list_ascii_of_string "false" ++ rest))
      with (literal "false" (VBool false)
              (list_ascii_of_string "false" ++ rest)).
    apply literal_word.
Qed.

Lemma array_parts_texts elems :
  map (fun e => default (list_ascii_of_string "null") (serialize e)) elems
  = map fst (array_parts elems).
Proof. unfold array_parts. rewrite map_map. done. Qed.

Lemma array_parts_images elems :
  map widen (map (fun e => default VNull (json_image e)) elems)
  = map snd (array_parts elems).
Proof. unfold array_parts. rewrite !map_map. done. Qed.

(** The text of a value reads back as the image of the value. *)
Lemma parse_value_serialize v :
  well_formed v ->
  forall t img, serialize v = Some t -> json_image v = Some img ->
  forall fuel rest, (length t <= fuel)%nat -> ends_number rest = true ->
  parse_value fuel (t ++ rest) = Some (widen img, rest).
Proof.
  induction v as [ | |b|n|str|elems IH|props IH] using jsval_ind;
    intros Hwf t img Hs Hi fuel rest Hfuel Hrest.
  - done.
  - injection Hs as <-. injection Hi as <-.
    destruct fuel; [simpl in Hfuel; lia|].
    apply parse_value_null.
  - injection Hi as <-.
    assert (Ht : t = list_ascii_of_string (if b then "true" else "false"))
      by (destruct b; by injection Hs as <-).
    subst t. destruct fuel; [destruct b; simpl in Hfuel; lia|].
    apply parse_value_bool.
  - simpl in Hs, Hi, Hwf. injection Hs as <-. injection Hi as <-.
    destruct (is_finite n) eqn:Hfin.
    + destruct (Number_toString_text n Hwf Hfin)
        as (neg & ip & fp & ex & Htext & Hparts & Hdec).
      destruct (number_text_start neg ip fp ex Hparts)
        as (c & tl & Hc & Hstart).
      destruct fuel; [rewrite Htext, Hc in Hfuel; simpl in Hfuel; lia|].
      rewrite Htext, Hc. simpl app. rewrite parse_value_number by done.
      rewrite app_comm_cons, <- Hc, parse_number_text by done.
      simpl. by rewrite Hdec.
    + destruct fuel; [simpl in Hfuel; lia|]. apply parse_value_null.
  - injection Hs as <-. injection Hi as <-.
    destruct fuel; [simpl in Hfuel; lia|].
    unfold quote, quote_chars. simpl app. rewrite <- app_assoc. simpl app.
    rewrite parse_value_string, parse_string_body_quote.
    + done.
    + rewrite length_app. simpl.
      pose proof (length_quoted (list_ascii_of_string str)). lia.
  - (* arrays *)
    apply well_formed_array in Hwf.
    simpl in Hs, Hi. injection Hs as <-. injection Hi as <-.
    rewrite array_parts_texts in *.
    change (widen (VArray ?l)) with (VArray (map widen l)).
    rewrite array_parts_images.
    destruct fuel as [|f]; [simpl in Hfuel; lia|].
    simpl in Hfuel. rewrite length_app in Hfuel. simpl in Hfuel.
    assert (Hparts : Forall (fun p =>
              (exists c tl, fst p = c :: tl /\ value_start c = true)
              /\ forall rest', ends_number rest' = true ->
                   parse_value f (fst p ++ rest') = Some (snd p, rest'))
              (array_parts elems)).
    { apply Forall_forall. intros p Hp.
      pose proof (length_join_elem (fst p) (map fst (array_parts elems))
                    ltac:(by apply list_elem_of_fmap_2)) as Hlen.
      unfold array_parts in Hp.
      apply list_elem_of_fmap in Hp as (e & -> & He). simpl in *.
      rewrite Forall_forall in IH, Hwf.
      destruct (serialize e) as [te|] eqn:Ese.
      - destruct (json_image e) as [ie|] eqn:Eie;
          [|apply json_image_none in Eie; by subst].
        simpl in *. split; [by apply (serialize_start e); auto|].
        intros rest' Hrest'. apply (IH e He); auto. lia.
      - apply serialize_none in Ese. subst e. simpl in *.
        split; [by eexists _, _|]. intros rest' Hrest'.
        destruct f; [lia|]. apply parse_value_null. }
    pose proof (length_join_count (map fst (array_parts elems))) as Hcount.
    rewrite length_map in Hcount.
    remember (length (join (map fst (array_parts elems)))) as J eqn:EJ.
    clear EJ.
    destruct (array_parts elems) as [|[t1 i1] parts] eqn:Eparts.
    + reflexivity.
    + apply Forall_cons in Hparts as [[(c & tl & Hc & Hstart) Hp1] Hparts].
      simpl in Hc, Hp1. subst t1.
      apply value_start_facts in Hstart as (Hws & Hclose & _).
      simpl map. rewrite join_cons.
      assert (Htext : ("["%char :: ((c :: tl)
                        ++ concat (map (cons ","%char) (map fst parts)))
                        ++ ["]"%char]) ++ rest
                      = "["%char :: (c :: tl)
                        ++ (concat (map (cons ","%char) (map fst parts))
                            ++ "]"%char :: rest)).
      { simpl. by rewrite <- !app_assoc. }
      rewrite Htext, parse_value_array.
      simpl app at 1. rewrite skip_ws_start by done.
      simpl strip. rewrite Hclose.
      change (c :: tl ++ ?s) with ((c :: tl) ++ s).
      rewrite Hp1 by (apply ends_number_elements; by left).
      cbn [mbind option_bind].
      rewrite parse_elements_join.
      * done.
      * eapply Forall_impl; [exact Hparts|]. by intros p [_ ?].
      * simpl in Hcount. lia.
  - (* objects *)
    apply well_formed_object in Hwf as [Hkeys Hwf].
    simpl in Hs, Hi. injection Hs as <-. injection Hi as <-.
    rewrite object_parts_texts in *.
    change (widen (VObject ?l))
      with (VObject (map (fun kv => (units_of (fst kv), widen (snd kv))) l)).
    rewrite object_parts_images.
    destruct fuel as [|f]; [simpl in Hfuel; lia|].
    simpl in Hfuel. rewrite length_app in Hfuel. simpl in Hfuel.
    assert (Hparts : Forall (fun p =>
              forall rest', ends_number rest' = true ->
                parse_value f (snd (fst p) ++ rest') = Some (snd p, rest'))
              (object_parts props)).
    { apply Forall_forall. intros p Hp.
      pose proof (length_join_elem (member_text p)
                    (map member_text (object_parts props))
                    ltac:(by apply list_elem_of_fmap_2)) as Hlen.
      unfold object_parts in Hp.
      apply list_elem_of_omap in Hp as ([k e] & He & Heq). simpl in Heq.
      rewrite Forall_forall in IH, Hwf.
      destruct (serialize e) as [te|] eqn:Ese; [|done].
      destruct (json_image e) as [ie|] eqn:Eie; [|done].
      injection Heq as <-. simpl in *.
      intros rest' Hrest'.
      apply (IH (k, e) He); [by apply (Hwf (k, e))|done|done| |done].
      rewrite !length_app in Hlen. simpl in Hlen. lia. }
    pose proof (length_join_count (map member_text (object_parts props)))
      as Hcount.
    rewrite length_map in Hcount.
    pose proof (object_parts_keys props Hkeys) as Hnd.
    remember (length (join (map member_text (object_parts props)))) as J
      eqn:EJ.
    clear EJ.
    destruct (object_parts props) as [|[[k1 t1] i1] parts] eqn:Eparts.
    + reflexivity.
    + apply Forall_cons in Hparts as [Hp1 Hparts]. simpl in Hp1.
      simpl map at 1. rewrite join_cons.
      assert (Htext : ("{"%char :: (member_text (k1, t1, i1)
                        ++ concat (map (cons ","%char)
                                       (map member_text parts)))
                        ++ ["}"%char]) ++ rest
                      = "{"%char :: quote k1 ++ ":"%char :: t1
                        ++ (concat (map (cons ","%char)
                                        (map member_text parts))
                            ++ "}"%char :: rest)).
      { unfold member_text at 1. simpl. by rewrite <- !app_assoc. }
      rewrite Htext, parse_value_object.
      assert (Hopen : strip "}" (skip_ws (quote k1 ++ ":"%char :: t1
                        ++ (concat (map (cons ","%char)
                                        (map member_text parts))
                            ++ "}"%char :: rest))) = None) by done.
      rewrite Hopen.
      rewrite (parse_member_text _ k1 t1 i1)
        by (apply Hp1, ends_number_elements; by right).
      cbn [mbind option_bind].
      rewrite parse_members_join.
      * done.
      * done.
      * simpl in Hcount. lia.
      * done.
Qed.

End JsonMain.
(** ** The round trip through the store *)

Section StoreRoundTrip.

Implicit Types (data : InvoiceData) (st : Storage) (item : InvoiceItem).

(** [JSON.parse] of [JSON.stringify]: the text of a value reads back as the
    image of the value. *)
Lemma JSON_parse_stringify (v : jsval string) text :
  well_formed v -> JSON.stringify v = Some text ->
  exists img, json_image v = Some img /\ JSON.parse text = Normal (widen img).
Proof.
  intros Hwf Htext. unfold JSON.stringify in Htext.
  destruct (JSON.serialize v) as [t|] eqn:Es; [|done].
  injection Htext as <-.
  destruct (json_image v) as [img|] eqn:Ei;
    [|apply json_image_none in Ei; by subst].
  exists img. split; [done|]. unfold JSON.parse.
  rewrite list_ascii_of_string_of_list.
  pose proof (parse_value_serialize v Hwf t img Es Ei (length t) []
                ltac:(lia) eq_refl) as Hparse.
  rewrite app_nil_r in Hparse. by rewrite Hparse.
Qed.

Lemma stored_number_plain x :
  plain_number x -> stored_number x = VNumber x.
Proof.
  intros (_ & Hfin & Hnz). unfold stored_number. rewrite Hfin.
  destruct x as [[]| | |]; done.
Qed.

Lemma json_image_item item :
  json_image (InvoiceItem_to_value item) = Some (stored_item item).
Proof. reflexivity. Qed.

Lemma json_image_data data :
  json_image (InvoiceData_to_value data) = Some (stored_value data).
Proof.
  unfold stored_value. cbn. rewrite map_map.
  by destruct (signature data).
Qed.

Lemma well_formed_data data :
  numbers_valid data -> well_formed (InvoiceData_to_value data).
Proof.
  intros Hvalid. apply well_formed_object. split.
  - simpl. apply (bool_decide_unpack _). vm_compute. exact I.
  - repeat (apply Forall_cons; split); try apply Forall_nil; try done.
    + by destruct (signature data).
    + change (well_formed (VArray (map InvoiceItem_to_value (items data)))).
      apply well_formed_array, Forall_fmap.
      eapply Forall_impl; [exact Hvalid|].
      intros item [Hq Hp]. simpl. split; [|done].
      apply (bool_decide_unpack _). vm_compute. exact I.
Qed.

End StoreRoundTrip.
Section StoreTheorems.

Implicit Types (data : InvoiceData) (st : Storage) (item : InvoiceItem).

Lemma stringify_data data :
  exists t, JSON.stringify (InvoiceData_to_value data)
            = Some (String "{" t).
Proof. unfold JSON.stringify. simpl. by eexists. Qed.

Lemma snapshot_stringify data :
  JSON.stringify (InvoiceData_to_value data) = Some (snapshot data).
Proof.
  unfold snapshot. by destruct (stringify_data data) as [t ->].
Qed.

Lemma snapshot_nonempty data : String.eqb (snapshot data) "" = false.
Proof.
  unfold snapshot. by destruct (stringify_data data) as [t ->].
Qed.

Lemma save_when_write_succeeds data st :
  write_succeeds data st ->
  saveToLocalStorage data st
  = Normal {| entries := <[STORAGE_KEY := snapshot data]> (entries st);
              quota := quota st; accessible := accessible st |}.
Proof.
  intros [Hacc Hroom]. unfold saveToLocalStorage, localStorage_setItem.
  fold (snapshot data). rewrite Hacc.
  apply Nat.leb_le in Hroom. by rewrite Hroom.
Qed.

Lemma load_snapshot data st :
  numbers_valid data ->
  accessible st = true ->
  entries st !! STORAGE_KEY = Some (snapshot data) ->
  loadFromLocalStorage st = Normal (widen (stored_value data)).
Proof.
  intros Hvalid Hacc Hentry.
  unfold loadFromLocalStorage, localStorage_getItem. rewrite Hacc. simpl.
  rewrite Hentry, snapshot_nonempty.
  destruct (JSON_parse_stringify _ _ (well_formed_data data Hvalid)
              (snapshot_stringify data)) as (img & Himg & ->).
  rewrite json_image_data in Himg. by injection Himg as <-.
Qed.

Lemma nonneg_integer_plain x : is_nonneg_integer x = true -> plain_number x.
Proof.
  destruct x as [[]| | |[] m e]; try done. simpl.
  intros [Hv _]%andb_prop. done.
Qed.

Lemma nonneg_decimal_plain x : is_nonneg_decimal x = true -> plain_number x.
Proof. destruct x as [[]| | |[] m e]; done. Qed.

Lemma stored_item_plain item :
  plain_number (quantity item) -> plain_number (price item) ->
  stored_item item = InvoiceItem_to_value item.
Proof.
  intros Hq Hp. unfold stored_item, InvoiceItem_to_value.
  by rewrite !stored_number_plain.
Qed.

Lemma stored_value_plain data :
  Forall (fun item => plain_number (quantity item)
                      /\ plain_number (price item)) (items data) ->
  stored_value data = InvoiceData_to_value data.
Proof.
  intros Hplain. unfold stored_value, InvoiceData_to_value.
  assert (Hmap : map stored_item (items data)
                 = map InvoiceItem_to_value (items data));
    [|by rewrite Hmap].
  apply Forall_fmap_ext_1.
  eapply Forall_impl; [exact Hplain|].
  intros item [Hq Hp]. by apply stored_item_plain.
Qed.

Lemma schema_plain data :
  Forall LineItem_schema (items data) ->
  Forall (fun item => plain_number (quantity item)
                      /\ plain_number (price item)) (items data).
Proof.
  intros Hitems. eapply Forall_impl; [exact Hitems|].
  intros item [Hq Hp].
  split; [by apply nonneg_integer_plain|by apply nonneg_decimal_plain].
Qed.

Lemma plain_numbers_valid data :
  Forall (fun item => plain_number (quantity item)
                      /\ plain_number (price item)) (items data) ->
  numbers_valid data.
Proof.
  intros H. eapply Forall_impl; [exact H|].
  by intros item [(? & _) (? & _)].
Qed.

(** After a write that succeeds, [loadFromLocalStorage] returns the record
    as its text tells it: every field as it is, but a quantity or a price
    that is not finite as [null], and [-0] as [0]. *)
Theorem save_then_load data st :
  numbers_valid data -> write_succeeds data st ->
  exists st',
    saveToLocalStorage data st = Normal st'
    /\ loadFromLocalStorage st' = Normal (widen (stored_value data)).
Proof.
  intros Hvalid Hwrite. eexists. split; [by apply save_when_write_succeeds|].
  destruct Hwrite as [Hacc _].
  apply load_snapshot; [done|done|]. simpl. apply lookup_insert_eq.
Qed.

End StoreTheorems.
(** ** The store, as the component uses it *)

Lemma save_then_load_schema (data : InvoiceData) (st : Storage) :
  Forall LineItem_schema (items data) ->
  write_succeeds data st ->
  exists st',
    saveToLocalStorage data st = Normal st'
    /\ loadFromLocalStorage st'
       = Normal (widen (InvoiceData_to_value data)).
Proof.
  intros Hschema Hwrite. apply schema_plain in Hschema.
  rewrite <- (stored_value_plain data Hschema).
  apply save_then_load; [by apply plain_numbers_valid|done].
Qed.




(** X1: for a draft whose quantities are non-negative integers and whose
    prices are non-negative decimals, whatever its other fields, and a
    storage that takes the write, [saveToLocalStorage] followed by
    [loadFromLocalStorage] returns the object of the draft, every field
    equal to the one saved. *)
Theorem X1_save_then_load_schema_draft (data : InvoiceData) (st : Storage) :
  Forall LineItem_schema (items data) ->
  write_succeeds data st ->
  exists st',
    saveToLocalStorage data st = Normal st'
    /\ loadFromLocalStorage st'
       = Normal (widen (InvoiceData_to_value data)).
Proof. apply save_then_load_schema. Qed.

Lemma X1_save_then_load_schema_draft_witness :
  exists st',
    saveToLocalStorage
      {| paperColor := "red"; signature := Some "data:image/png;base64,AA";
         invoiceNumber := "INV-7"; date := "2024-02-29";
         fromName := "A"; fromAddress := "B"; toName := "C";
         toAddress := "D";
         items := [ {| id := "7"; description := "ink";
                       quantity := of_Z 2;
                       price := of_decimal false 1999 (-2) |};
                    {| id := "7"; description := "paper";
                       quantity := of_Z 3;
                       price := of_decimal false 1050 (-2) |} ];
         note := "thanks" |}
      {| entries := ∅; quota := 5000; accessible := true |} = Normal st'
    /\ loadFromLocalStorage st'
       = Normal
           (widen
            (InvoiceData_to_value
              {| paperColor := "red";
                 signature := Some "data:image/png;base64,AA";
                 invoiceNumber := "INV-7"; date := "2024-02-29";
                 fromName := "A"; fromAddress := "B"; toName := "C";
                 toAddress := "D";
                 items := [ {| id := "7"; description := "ink";
                               quantity := of_Z 2;
                               price := of_decimal false 1999 (-2) |};
                            {| id := "7"; description := "paper";
                               quantity := of_Z 3;
                               price := of_decimal false 1050 (-2) |} ];
                 note := "thanks" |})).
Proof.
  apply (X1_save_then_load_schema_draft
           {| paperColor := "red";
              signature := Some "data:image/png;base64,AA";
              invoiceNumber := "INV-7"; date := "2024-02-29";
              fromName := "A"; fromAddress := "B"; toName := "C";
              toAddress := "D";
              items := [ {| id := "7"; description := "ink";
                            quantity := of_Z 2;
                            price := of_decimal false 1999 (-2) |};
                         {| id := "7"; description := "paper";
                            quantity := of_Z 3;
                            price := of_decimal false 1050 (-2) |} ];
              note := "thanks" |}
           {| entries := ∅; quota := 5000; accessible := true |}).
  - repeat constructor.
  - split; [reflexivity|].
    apply (bool_decide_unpack _). vm_compute. exact I.
Defined.

(** X2: whatever the quantities and prices are, a write that succeeds is
    read back field by field, except that a quantity or a price that is
    not finite (NaN, Infinity) comes back as [null] and [-0] as [0]. *)
Theorem X2_save_then_load_any_draft (data : InvoiceData) (st : Storage) :
  numbers_valid data ->
  write_succeeds data st ->
  exists st',
    saveToLocalStorage data st = Normal st'
    /\ loadFromLocalStorage st' = Normal (widen (stored_value data)).
Proof. apply save_then_load. Qed.

Lemma X2_save_then_load_any_draft_witness :
  exists st',
    saveToLocalStorage
      {| paperColor := "oklch(0.99 0 0)"; signature := None;
         invoiceNumber := "INV-002"; date := "2024-01-31";
         fromName := "A"; fromAddress := "B"; toName := "C";
         toAddress := "D";
         items := [ {| id := "1"; description := "x";
                       quantity := Infinity; price := pos_zero |} ];
         note := "n" |}
      {| entries := ∅; quota := 5000; accessible := true |} = Normal st'
    /\ loadFromLocalStorage st'
       = Normal
           (widen
            (VObject
              [ ("paperColor", VString "oklch(0.99 0 0)");
                ("signature", VNull);
                ("invoiceNumber", VString "INV-002");
                ("date", VString "2024-01-31");
                ("fromName", VString "A");
                ("fromAddress", VString "B");
                ("toName", VString "C");
                ("toAddress", VString "D");
                ("items",
                 VArray [ VObject [ ("id", VString "1");
                                    ("description", VString "x");
                                    ("quantity", VNull);
                                    ("price", VNumber pos_zero) ] ]);
                ("note", VString "n") ]%string)).
Proof.
  destruct (X2_save_then_load_any_draft
      {| paperColor := "oklch(0.99 0 0)"; signature := None;
         invoiceNumber := "INV-002"; date := "2024-01-31";
         fromName := "A"; fromAddress := "B"; toName := "C";
         toAddress := "D";
         items := [ {| id := "1"; description := "x";
                       quantity := Infinity; price := pos_zero |} ];
         note := "n" |}
      {| entries := ∅; quota := 5000; accessible := true |})
    as (st' & Hsave & Hload).
  - repeat constructor.
  - split; [reflexivity|].
    apply (bool_decide_unpack _). vm_compute. exact I.
  - exists st'. split; [exact Hsave|exact Hload].
Defined.

(** X3: the mount effect after a save that succeeded puts the saved draft
    in the state, whatever the state was: the stored snapshot replaces the
    defaults. *)
Theorem X3_mount_restores_saved_draft (data : InvoiceData) (st : Storage)
    (s : View.state) :
  InvoiceDraft_schema data ->
  write_succeeds data st ->
  exists st',
    saveToLocalStorage data st = Normal st'
    /\ mountEffect st' s = Normal (state_of data).
Proof.
  intros (_ & Hitems & _) Hwrite.
  destruct (save_then_load_schema data st Hitems Hwrite)
    as (st' & Hsave & Hload).
  exists st'. split; [done|]. unfold mountEffect. rewrite Hload.
  cbn [mbind completion_bind]. cbv beta.
  change (to_boolean (widen (InvoiceData_to_value data))) with true.
  cbv iota. f_equal. unfold state_of.
  assert (Hnote : get_prop (widen (InvoiceData_to_value data)) "note"
                  = VString (units_of (note data)))
    by (vm_compute; reflexivity).
  rewrite Hnote.
  assert (Hnote' : (if to_boolean (VString (units_of (note data)))
                    then VString (units_of (note data)) else VString [])
                   = widen (VString (note data)))
    by (by destruct (note data)).
  rewrite Hnote'.
  f_equal; vm_compute; reflexivity.
Qed.

Lemma X3_mount_restores_saved_draft_witness :
  exists st',
    saveToLocalStorage (defaultData 1700000000000)
      {| entries := ∅; quota := 5000; accessible := true |} = Normal st'
    /\ mountEffect st' blank_state
       = Normal (state_of (defaultData 1700000000000)).
Proof.
  apply (X3_mount_restores_saved_draft (defaultData 1700000000000)
           {| entries := ∅; quota := 5000; accessible := true |}
           blank_state).
  - split; [|split; [|split]].
    + apply (bool_decide_unpack _). vm_compute. exact I.
    + repeat constructor.
    + apply (bool_decide_unpack _). vm_compute. exact I.
    + discriminate.
  - split; [reflexivity|].
    apply (bool_decide_unpack _). vm_compute. exact I.
Defined.

(** X4: [saveToLocalStorage] never throws and touches nothing but the
    record under its key: the quota, the access and every other entry are
    as before. The record is the new snapshot when the storage can be used
    and has the room; in every other case the storage is left as it was,
    the earlier record included. *)
Theorem X4_save_writes_one_record_or_nothing (data : InvoiceData)
    (st : Storage) :
  exists st',
    saveToLocalStorage data st = Normal st'
    /\ quota st' = quota st
    /\ accessible st' = accessible st
    /\ (forall k, k <> STORAGE_KEY -> entries st' !! k = entries st !! k)
    /\ (write_succeeds data st ->
        entries st' !! STORAGE_KEY = Some (snapshot data))
    /\ (~ write_succeeds data st -> st' = st).
Proof.
  unfold saveToLocalStorage, localStorage_setItem, write_succeeds.
  fold (snapshot data).
  destruct (accessible st) eqn:Hacc; simpl.
  - destruct (used (<[STORAGE_KEY:=snapshot data]> (entries st))
              <=? quota st)%nat eqn:Hroom; simpl.
    + apply Nat.leb_le in Hroom. eexists. split; [done|]. simpl.
      repeat split; try done.
      * intros k Hk. by apply lookup_insert_ne.
      * intros _. apply lookup_insert_eq.
      * intros Hno. destruct Hno. by split.
    + apply Nat.leb_gt in Hroom. exists st. repeat split; try done.
      intros [_ Hle]. lia.
  - exists st. repeat split; try done. by intros [? _].
Qed.

Lemma X4_save_writes_one_record_or_nothing_witness :
  saveToLocalStorage (defaultData 1700000000000)
    {| entries := {[ STORAGE_KEY := "old"%string ]}; quota := 10;
       accessible := true |}
  = Normal {| entries := {[ STORAGE_KEY := "old"%string ]}; quota := 10;
              accessible := true |}.
Proof.
  destruct (X4_save_writes_one_record_or_nothing (defaultData 1700000000000)
              {| entries := {[ STORAGE_KEY := "old"%string ]}; quota := 10;
                 accessible := true |})
    as (st' & Hsave & _ & _ & _ & _ & Hfail).
  rewrite Hsave. f_equal. apply Hfail.
  intros [_ Hroom]. vm_compute in Hroom. lia.
Defined.

(** X5: a stored record that parses to something other than an object
    does not fall back to the defaults as a missing record does: a falsy
    one ([null], [false], [0], an empty string) leaves the state as it is,
    but a truthy one (a number, a string, an array, [true]) sets every
    field to [undefined] and the note to the empty string. *)
Theorem X5_mount_with_non_object_record (st : Storage) (s : View.state)
    (v : jsval jsstring) :
  loadFromLocalStorage st = Normal v ->
  is_object v = false ->
  mountEffect st s = Normal (if to_boolean v then blank_state else s).
Proof.
  intros Hload Hobj. unfold mountEffect. rewrite Hload. simpl.
  destruct (to_boolean v); [|done].
  by destruct v.
Qed.

Lemma X5_mount_with_non_object_record_witness :
  mountEffect {| entries := {[ STORAGE_KEY := "5"%string ]}; quota := 5000;
                 accessible := true |} (initial_state 1700000000000)
  = Normal blank_state.
Proof.
  apply (X5_mount_with_non_object_record
           {| entries := {[ STORAGE_KEY := "5"%string ]}; quota := 5000;
              accessible := true |} (initial_state 1700000000000)
           (VNumber (of_Z 5))).
  - vm_compute. reflexivity.
  - reflexivity.
Defined.
(** ** More on the item list *)

Section ItemListMore.

Implicit Types (rows before after : list InvoiceItem) (row item : InvoiceItem).

Lemma id_set_field f (v : field_type f) item :
  f <> f_id -> id (set_field f v item) = id item.
Proof. by destruct f. Qed.

Lemma ids_updateItem rows id0 f (v : field_type f) :
  f <> f_id -> ids (updateItem id0 f v rows) = ids rows.
Proof.
  intros Hf. unfold ids, updateItem. rewrite map_map.
  apply map_ext. intros item.
  destruct (String.eqb (id item) id0); [by apply id_set_field|done].
Qed.

Lemma set_field_twice f (v w : field_type f) item :
  set_field f v (set_field f w item) = set_field f v item.
Proof. by destruct f. Qed.

Lemma set_field_comm f g (v : field_type f) (w : field_type g) item :
  f <> g ->
  set_field f v (set_field g w item) = set_field g w (set_field f v item).
Proof. by destruct f, g. Qed.

Lemma subtotal_fold rows :
  subtotal rows = fold_left add (map lineTotal rows) pos_zero.
Proof.
  unfold subtotal. generalize pos_zero.
  induction rows as [|row rows IH]; intros acc; [done|]. simpl. apply IH.
Qed.

Lemma lineTotal_set_field f (v : field_type f) item :
  f = f_id \/ f = f_description ->
  lineTotal (set_field f v item) = lineTotal item.
Proof. by intros [-> | ->]. Qed.

Lemma fold_add_NaN (xs : list number) :
  fold_left add xs NaN = NaN.
Proof. induction xs as [|x xs IH]; [done|]. simpl. apply IH. Qed.

Lemma add_NaN_r x : add x NaN = NaN.
Proof. by destruct x. Qed.

End ItemListMore.

(** X6: on rows with pairwise distinct ids, two of them at least,
    [removeItem] of the id of a row takes that row out and keeps every
    other row, in order. *)
Theorem X6_removeItem_takes_one_row (before after : list InvoiceItem)
    (row : InvoiceItem) :
  NoDup (ids (before ++ row :: after)) ->
  before ++ after <> [] ->
  removeItem (id row) (before ++ row :: after) = before ++ after.
Proof.
  intros Hnd Hne. unfold removeItem.
  assert (Hlen : (1 <? length (before ++ row :: after))%nat = true).
  { apply Nat.ltb_lt. rewrite length_app. simpl.
    destruct before, after; simpl; try lia. done. }
  rewrite Hlen, List.filter_app. simpl. rewrite String.eqb_refl. simpl.
  unfold ids in Hnd. rewrite map_app in Hnd. simpl in Hnd.
  apply NoDup_app in Hnd as (_ & Hdisj & Hnd).
  apply NoDup_cons in Hnd as [Hafter _].
  rewrite !filter_other_ids; [done| |].
  - apply Forall_forall. intros other Hin Heq. apply Hafter.
    rewrite <- Heq. apply list_elem_of_fmap. by exists other.
  - apply Forall_forall. intros other Hin Heq.
    apply (Hdisj (id other)).
    + apply list_elem_of_fmap. by exists other.
    + rewrite Heq. by left.
Qed.

Lemma X6_removeItem_takes_one_row_witness :
  removeItem "2" [blank_item "1"; blank_item "2"; blank_item "3"]
  = [blank_item "1"; blank_item "3"].
Proof.
  apply (X6_removeItem_takes_one_row [blank_item "1"] [blank_item "3"]
           (blank_item "2")).
  - apply (bool_decide_unpack _). vm_compute. exact I.
  - discriminate.
Defined.

(** X7: [removeItem] undoes [addItem]: on a list that is not empty,
    removing the id that [addItem] has just drawn, an id no row carried,
    gives the list back. On the empty list the new row stays, being the
    only one. *)
Theorem X7_removeItem_undoes_addItem (rows : list InvoiceItem) (t : Z) :
  Number_toString (Date_now t) ∉ ids rows ->
  removeItem (Number_toString (Date_now t)) (addItem t rows)
  = match rows with
    | [] => addItem t []
    | _ => rows
    end.
Proof.
  intros Hfresh. destruct rows as [|row rows']; [done|].
  remember (row :: rows') as rows eqn:Erows.
  assert (Hne : (1 <= length rows)%nat) by (subst rows; simpl; lia).
  clear Erows. unfold removeItem, addItem.
  assert (Hlen : (1 <? length (rows
                   ++ [blank_item (Number_toString (Date_now t))]))%nat
                 = true).
  { apply Nat.ltb_lt. rewrite length_app. simpl. lia. }
  rewrite Hlen, List.filter_app.
  assert (Hnew : List.filter
                   (fun item => negb (String.eqb (id item)
                                        (Number_toString (Date_now t))))
                   [blank_item (Number_toString (Date_now t))] = []).
  { simpl. by rewrite String.eqb_refl. }
  rewrite Hnew, app_nil_r.
  apply filter_other_ids, Forall_forall. intros other Hin Heq.
  apply Hfresh. rewrite <- Heq. apply list_elem_of_fmap. by exists other.
Qed.

Lemma X7_removeItem_undoes_addItem_witness :
  removeItem (Number_toString (Date_now 1700000000000))
             (addItem 1700000000000 [blank_item "1"])
  = [blank_item "1"].
Proof.
  apply (X7_removeItem_undoes_addItem [blank_item "1"] 1700000000000).
  apply (bool_decide_unpack _). vm_compute. exact I.
Defined.

(** X8: [updateItem] of a field other than the id keeps the ids of the
    rows, so rows with distinct ids keep distinct ids; and of two updates
    of the same field of the same id the later one is the one that
    stands. *)
Theorem X8_updateItem_keeps_ids_last_write_wins (rows : list InvoiceItem)
    (id0 : string) (f : field) (v w : field_type f) :
  f <> f_id ->
  ids (updateItem id0 f v rows) = ids rows
  /\ (NoDup (ids rows) -> NoDup (ids (updateItem id0 f v rows)))
  /\ updateItem id0 f v (updateItem id0 f w rows) = updateItem id0 f v rows.
Proof.
  intros Hf. split; [by apply ids_updateItem|].
  split; [by rewrite ids_updateItem|].
  unfold updateItem. rewrite map_map. apply map_ext. intros item.
  destruct (String.eqb (id item) id0) eqn:E.
  - rewrite id_set_field by done. rewrite E. apply set_field_twice.
  - by rewrite E.
Qed.

Lemma X8_updateItem_keeps_ids_last_write_wins_witness :
  ids (updateItem "1" f_quantity (of_Z 3) [blank_item "1"; blank_item "2"])
  = ["1"; "2"]%string
  /\ updateItem "1" f_quantity (of_Z 3)
       (updateItem "1" f_quantity (of_Z 7) [blank_item "1"; blank_item "2"])
     = updateItem "1" f_quantity (of_Z 3) [blank_item "1"; blank_item "2"].
Proof.
  destruct (X8_updateItem_keeps_ids_last_write_wins
              [blank_item "1"; blank_item "2"] "1" f_quantity
              (of_Z 3) (of_Z 7)) as (Hids & _ & Hlast).
  - discriminate.
  - split; [exact Hids|exact Hlast].
Defined.

(** X9: two updates of fields other than the id commute when they are of
    different fields or of different ids. *)
Theorem X9_updateItem_commutes (rows : list InvoiceItem) (id0 id1 : string)
    (f g : field) (v : field_type f) (w : field_type g) :
  f <> f_id -> g <> f_id -> f <> g \/ id0 <> id1 ->
  updateItem id0 f v (updateItem id1 g w rows)
  = updateItem id1 g w (updateItem id0 f v rows).
Proof.
  intros Hf Hg Hdiff. unfold updateItem. rewrite !map_map.
  apply map_ext. intros item.
  destruct (String.eqb_spec (id item) id0) as [H0|H0],
           (String.eqb_spec (id item) id1) as [H1|H1];
    rewrite ?id_set_field by done;
    rewrite ?(proj2 (String.eqb_eq _ _) H0), ?(proj2 (String.eqb_eq _ _) H1),
      ?(proj2 (String.eqb_neq _ _) H0), ?(proj2 (String.eqb_neq _ _) H1);
    try done.
  destruct Hdiff as [Hfg|Hid]; [by apply set_field_comm|].
  congruence.
Qed.

Lemma X9_updateItem_commutes_witness :
  updateItem "1" f_quantity (of_Z 3)
    (updateItem "1" f_price (of_Z 7) [blank_item "1"; blank_item "2"])
  = updateItem "1" f_price (of_Z 7)
      (updateItem "1" f_quantity (of_Z 3) [blank_item "1"; blank_item "2"]).
Proof.
  apply (X9_updateItem_commutes [blank_item "1"; blank_item "2"] "1" "1"
           f_quantity f_price (of_Z 3) (of_Z 7)).
  - discriminate.
  - discriminate.
  - left. discriminate.
Defined.

(** X10: an update of a description or of an id changes no line total and
    leaves the subtotal and the two amounts of the totals block as they
    are. *)
Theorem X10_text_updates_keep_totals (rows : list InvoiceItem)
    (id0 : string) (f : field) (v : field_type f) :
  f = f_id \/ f = f_description ->
  map lineTotal (updateItem id0 f v rows) = map lineTotal rows
  /\ subtotal (updateItem id0 f v rows) = subtotal rows
  /\ render_totals (updateItem id0 f v rows) = render_totals rows.
Proof.
  intros Hf.
  assert (Hmap : map lineTotal (updateItem id0 f v rows)
                 = map lineTotal rows).
  { unfold updateItem. rewrite map_map. apply map_ext. intros item.
    destruct (String.eqb (id item) id0); [by apply lineTotal_set_field|done]. }
  assert (Hsub : subtotal (updateItem id0 f v rows) = subtotal rows)
    by (by rewrite !subtotal_fold, Hmap).
  split; [done|]. split; [done|]. unfold render_totals. by rewrite Hsub.
Qed.

Lemma X10_text_updates_keep_totals_witness :
  subtotal (updateItem "1" f_description "paper"
              [blank_item "1"; blank_item "2"])
  = subtotal [blank_item "1"; blank_item "2"].
Proof.
  destruct (X10_text_updates_keep_totals [blank_item "1"; blank_item "2"]
              "1" f_description "paper"%string) as (_ & Hsub & _).
  - by right.
  - exact Hsub.
Defined.

(** X11: a line total that is not a number spoils the totals: when the
    line total of some row is NaN (as an infinite quantity at price 0 is),
    the subtotal is NaN and both amounts of the totals block read [$NaN]. *)
Theorem X11_NaN_line_total_spoils_totals (rows : list InvoiceItem) :
  Exists (fun row => lineTotal row = NaN) rows ->
  subtotal rows = NaN
  /\ subtotal_text (render_totals rows) = "$NaN"%string
  /\ total_text (render_totals rows) = "$NaN"%string.
Proof.
  intros Hnan.
  assert (Hsub : subtotal rows = NaN).
  { rewrite subtotal_fold. generalize pos_zero.
    induction Hnan as [row rows Hrow|row rows _ IH]; intros acc; simpl.
    - rewrite Hrow, add_NaN_r. apply fold_add_NaN.
    - apply IH. }
  split; [done|]. unfold render_totals. simpl. by rewrite Hsub.
Qed.

Lemma X11_NaN_line_total_spoils_totals_witness :
  subtotal [ blank_item "1";
             {| id := "2"; description := ""; quantity := Infinity;
                price := pos_zero |} ] = NaN
  /\ subtotal_text
       (render_totals [ blank_item "1";
                        {| id := "2"; description := "";
                           quantity := Infinity; price := pos_zero |} ])
     = "$NaN"%string.
Proof.
  destruct (X11_NaN_line_total_spoils_totals
              [ blank_item "1";
                {| id := "2"; description := ""; quantity := Infinity;
                   price := pos_zero |} ]) as (Hsub & Htext & _).
  - apply Exists_cons_tl, Exists_cons_hd. reflexivity.
  - split; [exact Hsub|exact Htext].
Defined.

(** X12: whatever the text, the quantity input stores a number that is
    neither NaN nor a zero, and the price input stores a number that is
    neither NaN nor [-0]. *)
Theorem X12_inputs_never_store_NaN (item : InvoiceItem) (text : string)
    (rows : list InvoiceItem) (i : nat) (row : InvoiceItem) :
  rows !! i = Some row -> id row = id item ->
  (exists q, quantity <$> onQuantityChange item text rows !! i = Some q
             /\ truthy q = true)
  /\ (exists p, price <$> onPriceChange item text rows !! i = Some p
                /\ p <> NaN /\ p <> neg_zero).
Proof.
  intros Hi Hid. unfold onQuantityChange, onPriceChange.
  rewrite !lookup_updateItem, Hi. simpl. rewrite Hid, String.eqb_refl.
  simpl. split.
  - eexists. split; [done|]. unfold or_else.
    by destruct (truthy (parseInt text)) eqn:E.
  - eexists. split; [done|]. unfold or_else.
    destruct (parseFloat text) as [[]| | |]; done.
Qed.

Lemma X12_inputs_never_store_NaN_witness :
  (exists q, quantity <$> onQuantityChange (blank_item "1") "abc"
                            [blank_item "1"] !! 0%nat = Some q
             /\ truthy q = true)
  /\ (exists p, price <$> onPriceChange (blank_item "1") "abc"
                            [blank_item "1"] !! 0%nat = Some p
                /\ p <> NaN /\ p <> neg_zero).
Proof.
  apply (X12_inputs_never_store_NaN (blank_item "1") "abc" [blank_item "1"]
           0%nat (blank_item "1")); reflexivity.
Defined.
(** ** What the inputs read *)

Section InputsRead.

Implicit Types (ws ds rest s : list ascii).

Lemma is_digit_not_white c : is_digit c = true -> is_white c = false.
Proof.
  destruct c as [[] [] [] [] [] [] [] []]; vm_compute; intros H;
    try discriminate H; done.
Qed.

Lemma trim_start_white ws s :
  Forall (fun c => is_white c = true) ws ->
  match s with c :: _ => is_white c = false | [] => True end ->
  trim_start (ws ++ s) = s.
Proof.
  intros Hws Hs. induction Hws as [|c ws Hc _ IH]; simpl.
  - destruct s as [|c s]; [done|]. simpl. by rewrite Hs.
  - by rewrite Hc.
Qed.

Lemma take_sign_digit c s :
  is_digit c = true -> take_sign (c :: s) = (false, c :: s).
Proof.
  intros Hc. unfold take_sign. by rewrite !strip_digit.
Qed.

(** Digits of a positive value make no hexadecimal prefix with what
    follows them: a single ["0"] has the value 0. *)
Lemma starts_with_hex_prefix c' ds rest :
  (c' = "x" \/ c' = "X")%char ->
  digits_only ds -> 0 < digits_value 0 ds ->
  starts_with ["0"%char; c'] (ds ++ rest) = false.
Proof.
  intros Hc' Hds Hpos. unfold starts_with. apply bool_decide_eq_false.
  destruct ds as [|d1 [|d2 ds]]; [done| |].
  - destruct rest as [|r rest]; [done|]. simpl. intros [= -> ->].
    vm_compute in Hpos. discriminate Hpos.
  - simpl. intros [= -> ->]. apply Forall_cons in Hds as [_ Hds].
    apply Forall_cons in Hds as [Hd2 _]. destruct Hc' as [-> | ->]; done.
Qed.

Lemma stops_integer_head rest :
  stops_integer rest = true ->
  match rest with c :: _ => is_digit c = false | [] => True end.
Proof.
  destruct rest as [|c rest]; [done|]. simpl. intros H.
  by apply negb_true_iff in H.
Qed.

(** [parseInt] skips white space, reads the decimal digits and leaves the
    rest of the text out. *)
Lemma parseInt_digits ws ds rest :
  Forall (fun c => is_white c = true) ws ->
  digits_only ds -> ds <> [] -> stops_integer rest = true ->
  0 < digits_value 0 ds ->
  parseInt_chars (ws ++ ds ++ rest) = of_Z (digits_value 0 ds).
Proof.
  intros Hws Hds Hne Hrest Hpos. unfold parseInt_chars.
  destruct ds as [|d ds'] eqn:Eds; [done|]. rewrite <- Eds in *.
  assert (Hd : is_digit d = true)
    by (rewrite Eds in Hds; by apply Forall_cons in Hds as [? _]).
  rewrite trim_start_white;
    [|done|rewrite Eds; simpl; by apply is_digit_not_white].
  assert (Hsign : take_sign (ds ++ rest) = (false, ds ++ rest))
    by (rewrite Eds; simpl; by apply take_sign_digit).
  rewrite Hsign. cbv beta iota zeta.
  rewrite !starts_with_hex_prefix by auto. simpl orb. cbv beta iota zeta.
  rewrite span_digits by (done || by apply stops_integer_head).
  destruct ds as [|d0 ds0]; [done|].
  destruct (_ =? 0) eqn:E; [apply Z.eqb_eq in E; lia|].
  by destruct (digits_value 0 (d0 :: ds0)).
Qed.

End InputsRead.

(** X13: the quantity input keeps the leading integer of an entry and
    drops what follows it: for a text made of white space, decimal digits
    of a positive value and a rest that starts with no digit (a decimal
    point, a letter, an exponent), the quantity stored in the row is the
    Number value of the digits, so that 3.9 stores 3, 1e3 stores 1 and 5x
    stores 5. *)
Theorem X13_quantity_keeps_leading_integer (item : InvoiceItem)
    (ws ds rest : list ascii) (rows : list InvoiceItem) :
  Forall (fun c => is_white c = true) ws ->
  digits_only ds -> ds <> [] -> stops_integer rest = true ->
  0 < digits_value 0 ds ->
  onQuantityChange item (string_of_list_ascii (ws ++ ds ++ rest)) rows
  = updateItem (id item) f_quantity (of_Z (digits_value 0 ds)) rows
  /\ forall i row,
       rows !! i = Some row -> id row = id item ->
       quantity
         <$> onQuantityChange item (string_of_list_ascii (ws ++ ds ++ rest))
               rows !! i
       = Some (of_Z (digits_value 0 ds)).
Proof.
  intros Hws Hds Hne Hrest Hpos.
  assert (Heq : onQuantityChange item
                  (string_of_list_ascii (ws ++ ds ++ rest)) rows
                = updateItem (id item) f_quantity
                             (of_Z (digits_value 0 ds)) rows).
  { unfold onQuantityChange, parseInt.
    rewrite list_ascii_of_string_of_list, parseInt_digits by done.
    pose proof (round_ratio_int false _ Hpos) as Hround.
    assert (Hof : of_Z (digits_value 0 ds)
                  = round_ratio false (digits_value 0 ds) 1)
      by (by destruct (digits_value 0 ds)).
    rewrite Hof. unfold or_else.
    by destruct (round_ratio false (digits_value 0 ds) 1). }
  split; [exact Heq|]. intros i row Hi Hid.
  rewrite Heq, lookup_updateItem, Hi. simpl.
  by rewrite Hid, String.eqb_refl.
Qed.

Lemma X13_quantity_keeps_leading_integer_witness :
  quantity <$> onQuantityChange (blank_item "2") " 5x"
                 [blank_item "1"; blank_item "2"] !! 1%nat
  = Some (of_Z 5).
Proof.
  destruct (X13_quantity_keeps_leading_integer (blank_item "2")
              [" "%char] ["5"%char] ["x"%char]
              [blank_item "1"; blank_item "2"]) as [_ Hread].
  - repeat constructor.
  - repeat constructor.
  - discriminate.
  - reflexivity.
  - vm_compute. reflexivity.
  - apply (Hread 1%nat (blank_item "2")); reflexivity.
Defined.
Section PriceReadsBack.

Implicit Types (ip fp rest s : list ascii) (ex : option (bool * list ascii)).

(** [parseFloat] reads a literal as the Number value of its decimal. *)
Lemma parseFloat_text neg ip fp ex :
  literal_parts ip fp ex ->
  parseFloat_chars (number_text neg ip fp ex)
  = of_decimal neg (digits_value (digits_value 0 ip) fp)
               (exponent_value ex - Z.of_nat (length fp)).
Proof.
  intros (Hip & (c & ip' & -> & Hzero) & Hfp & Hex).
  assert (Hc : is_digit c = true) by (by apply Forall_cons in Hip as [? _]).
  set (etext := match ex with
                | Some (eneg, eds) =>
                    "e"%char :: (if eneg then "-"%char else "+"%char) :: eds
                | None => []
                end).
  set (ftext := match fp with [] => [] | _ :: _ => "."%char :: fp end).
  assert (Htext : number_text neg (c :: ip') fp ex
                  = (if neg then ["-"%char] else [])
                    ++ (c :: ip') ++ ftext ++ etext).
  { reflexivity. }
  rewrite Htext. unfold parseFloat_chars.
  assert (Hsign : take_sign (trim_start ((if neg then ["-"%char] else [])
                                         ++ (c :: ip') ++ ftext ++ etext))
                  = (neg, (c :: ip') ++ ftext ++ etext)).
  { destruct neg.
    - reflexivity.
    - simpl app. cbn [trim_start]. rewrite is_digit_not_white by done.
      by apply take_sign_digit. }
  rewrite Hsign. cbv beta iota zeta.
  assert (Hinf : starts_with (list_ascii_of_string "Infinity")
                             ((c :: ip') ++ ftext ++ etext) = false).
  { unfold starts_with. apply bool_decide_eq_false. simpl.
    intros [= -> _]. done. }
  rewrite Hinf. unfold scan_decimal.
  (* the exponent *)
  assert (Hexp : match scan_exponent etext with
                 | Some (x, _) => x
                 | None => 0
                 end = exponent_value ex
                 /\ match etext with
                    | c0 :: _ => is_digit c0 = false
                    | [] => True
                    end
                 /\ (fp = [] -> strip "." etext = None)).
  { subst etext. destruct ex as [[eneg eds]|].
    - destruct Hex as [Heds Hne]. split; [|by split].
      pose proof (scan_exponent_text eneg eds [] Heds Hne eq_refl) as H.
      rewrite app_nil_r in H. by rewrite H.
    - by repeat split. }
  destruct Hexp as (Hexp & Hehead & Hepoint).
  assert (Hfrac : match ftext ++ etext with
                  | c0 :: _ => is_digit c0 = false
                  | [] => True
                  end
                  /\ (match strip "." (ftext ++ etext) with
                      | Some s1' => span is_digit s1'
                      | None => ([], ftext ++ etext)
                      end) = (fp, etext)).
  { subst ftext. destruct fp as [|f fp'].
    - simpl app. split; [done|]. by rewrite Hepoint.
    - split; [done|].
      change (strip "." (("."%char :: f :: fp') ++ etext))
        with (Some ((f :: fp') ++ etext)).
      cbv beta iota. by rewrite span_digits. }
  destruct Hfrac as (Hfhead & Hfrac).
  rewrite span_digits by done. rewrite Hfrac, Hexp. done.
Qed.

(** The text of a number reads back, through [parseFloat], as the number:
    NaN and the infinities as themselves, [-0] as [0]. *)
Lemma parseFloat_toString x :
  valid x = true ->
  parseFloat (Number_toString x) = (if is_zero x then pos_zero else x).
Proof.
  intros Hvalid. unfold parseFloat, Number_toString.
  rewrite list_ascii_of_string_of_list.
  destruct (is_finite x) eqn:Hfin.
  - destruct (Number_toString_text x Hvalid Hfin)
      as (neg & ip & fp & ex & -> & Hparts & <-).
    by apply parseFloat_text.
  - destruct x as [s|[]| |s m e]; done.
Qed.

End PriceReadsBack.

(** X14: the text the price input shows for a price reads back as that
    price: entering the text of a price that is a number and not [-0]
    stores the same price. *)
Theorem X14_shown_price_reads_back (item : InvoiceItem) (p : number)
    (rows : list InvoiceItem) :
  valid p = true -> p <> NaN -> p <> neg_zero ->
  parseFloat (Number_toString p) = p
  /\ onPriceChange item (Number_toString p) rows
     = updateItem (id item) f_price p rows.
Proof.
  intros Hvalid Hnan Hnz.
  assert (Hread : parseFloat (Number_toString p) = p).
  { rewrite parseFloat_toString by done. by destruct p as [[]| | |]. }
  split; [done|]. unfold onPriceChange. rewrite Hread. unfold or_else.
  by destruct p as [[]| | |].
Qed.

Lemma X14_shown_price_reads_back_witness :
  parseFloat (Number_toString (of_decimal false 1050 (-2)))
  = of_decimal false 1050 (-2)
  /\ onPriceChange (blank_item "1")
       (Number_toString (of_decimal false 1050 (-2))) [blank_item "1"]
     = updateItem "1" f_price (of_decimal false 1050 (-2)) [blank_item "1"].
Proof.
  apply (X14_shown_price_reads_back (blank_item "1")
           (of_decimal false 1050 (-2)) [blank_item "1"]).
  - vm_compute. reflexivity.
  - vm_compute. discriminate.
  - vm_compute. discriminate.
Defined.
(** ** The ids of the rows *)

Section ClockIds.

(** The Number value of a positive integer below [2 ^ 53] is the integer
    itself, normalised to 53 bits. *)
Lemma of_Z_pos_exact p :
  Zpos p < 2 ^ 53 ->
  exists m,
    Zpos m = Zpos p * 2 ^ (52 - Z.log2 (Zpos p))
    /\ bounded prec emax m (Z.log2 (Zpos p) - 52) = true
    /\ round_ratio false (Zpos p) 1
       = S754_finite false m (Z.log2 (Zpos p) - 52).
Proof.
  intros Hp. set (l := Z.log2 (Zpos p)).
  pose proof (Z.log2_spec (Zpos p) ltac:(lia)) as [Hlo Hhi]. fold l in Hlo, Hhi.
  pose proof (Z.log2_nonneg (Zpos p)) as Hl. fold l in Hl.
  assert (Hl52 : l <= 52).
  { destruct (Z_le_gt_dec l 52) as [|Hgt]; [done|].
    assert (2 ^ 53 <= 2 ^ l) by (apply Z.pow_le_mono_r; lia). lia. }
  assert (Hpow : 0 < 2 ^ (52 - l)) by (apply Z.pow_pos_nonneg; lia).
  assert (Hm : 0 < Zpos p * 2 ^ (52 - l)) by lia.
  exists (Z.to_pos (Zpos p * 2 ^ (52 - l))).
  rewrite Z2Pos.id by done. split; [done|].
  assert (Hlog : Z.log2 (Zpos p * 2 ^ (52 - l)) = 52).
  { rewrite Z.log2_mul_pow2 by lia. fold l. lia. }
  assert (Hb : bounded prec emax (Z.to_pos (Zpos p * 2 ^ (52 - l))) (l - 52)
               = true).
  { unfold bounded, canonical_mantissa, fexp, SpecFloat.emin, prec, emax.
    rewrite digits2_pos_log2, Z2Pos.id, Hlog by done.
    apply andb_true_intro. split; [apply Z.eqb_eq|apply Z.leb_le]; lia. }
  split; [done|].
  apply round_ratio_exact; [lia|lia|done|].
  unfold scaled_num, scaled_den.
  rewrite (pow2_nonneg (- (l - 52))), (pow2_nonpos (l - 52)) by lia.
  rewrite Z2Pos.id by done. replace (- (l - 52)) with (52 - l) by lia. lia.
Qed.

Lemma of_Z_valid t :
  - 2 ^ 53 < t < 2 ^ 53 ->
  valid (of_Z t) = true /\ is_finite (of_Z t) = true /\ of_Z t <> neg_zero.
Proof.
  intros Ht. destruct t as [|p|p]; [done| |].
  - destruct (of_Z_pos_exact p ltac:(lia)) as (m & _ & Hb & Hround).
    simpl of_Z. rewrite Hround. by repeat split.
  - destruct (of_Z_pos_exact p ltac:(lia)) as (m & _ & Hb & Hround).
    simpl of_Z. rewrite round_ratio_sign, Hround. by repeat split.
Qed.

Lemma of_Z_pos_inj p p' :
  Zpos p < 2 ^ 53 -> Zpos p' < 2 ^ 53 ->
  round_ratio false (Zpos p) 1 = round_ratio false (Zpos p') 1 -> p = p'.
Proof.
  intros Hp Hp' Heq.
  destruct (of_Z_pos_exact p Hp) as (m & Hm & _ & Hround).
  destruct (of_Z_pos_exact p' Hp') as (m' & Hm' & _ & Hround').
  rewrite Hround, Hround' in Heq.
  pose proof (f_equal (fun x => match x with
                                | S754_finite _ _ e => e
                                | _ => 0
                                end) Heq) as He.
  pose proof (f_equal (fun x => match x with
                                | S754_finite _ m0 _ => m0
                                | _ => xH
                                end) Heq) as Hmm.
  cbv beta iota in He, Hmm.
  assert (Hl : Z.log2 (Zpos p) = Z.log2 (Zpos p')) by lia.
  rewrite Hmm, Hm', Hl in Hm.
  assert (Hl52 : Z.log2 (Zpos p') <= 52).
  { pose proof (Z.log2_spec (Zpos p') ltac:(lia)) as [Hlo _].
    destruct (Z_le_gt_dec (Z.log2 (Zpos p')) 52) as [|Hgt]; [done|].
    assert (2 ^ 53 <= 2 ^ Z.log2 (Zpos p'))
      by (apply Z.pow_le_mono_r; lia). lia. }
  assert (0 < 2 ^ (52 - Z.log2 (Zpos p')))
    by (apply Z.pow_pos_nonneg; lia).
  apply Z.mul_cancel_r in Hm; [|lia]. by injection Hm.
Qed.

(** Different integers below [2 ^ 53] in size have different Number
    values. *)
Lemma of_Z_inj t t' :
  - 2 ^ 53 < t < 2 ^ 53 -> - 2 ^ 53 < t' < 2 ^ 53 ->
  of_Z t = of_Z t' -> t = t'.
Proof.
  intros Ht Ht' Heq.
  pose proof (fun p (H : Zpos p < 2 ^ 53) => of_Z_pos_exact p H) as Hex.
  destruct t as [|p|p], t' as [|p'|p']; simpl in Heq; try done.
  - destruct (Hex p' ltac:(lia)) as (m & _ & _ & Hr). by rewrite Hr in Heq.
  - destruct (Hex p' ltac:(lia)) as (m & _ & _ & Hr).
    by rewrite round_ratio_sign, Hr in Heq.
  - destruct (Hex p ltac:(lia)) as (m & _ & _ & Hr). by rewrite Hr in Heq.
  - f_equal. apply of_Z_pos_inj; [lia|lia|done].
  - destruct (Hex p ltac:(lia)) as (m & _ & _ & Hr).
    destruct (Hex p' ltac:(lia)) as (m' & _ & _ & Hr').
    by rewrite (round_ratio_sign true), Hr, Hr' in Heq.
  - destruct (Hex p ltac:(lia)) as (m & _ & _ & Hr).
    by rewrite round_ratio_sign, Hr in Heq.
  - destruct (Hex p ltac:(lia)) as (m & _ & _ & Hr).
    destruct (Hex p' ltac:(lia)) as (m' & _ & _ & Hr').
    by rewrite (round_ratio_sign true), Hr, Hr' in Heq.
  - f_equal. apply of_Z_pos_inj; [lia|lia|].
    destruct (Hex p ltac:(lia)) as (m & _ & _ & Hr).
    destruct (Hex p' ltac:(lia)) as (m' & _ & _ & Hr').
    rewrite !(round_ratio_sign true), Hr, Hr' in Heq. rewrite Hr, Hr'.
    congruence.
Qed.

(** Numbers with the same text are the same number. *)
Lemma Number_toString_inj x y :
  valid x = true -> valid y = true -> x <> neg_zero -> y <> neg_zero ->
  Number_toString x = Number_toString y -> x = y.
Proof.
  intros Hx Hy Hxz Hyz Heq.
  pose proof (parseFloat_toString x Hx) as Hrx.
  pose proof (parseFloat_toString y Hy) as Hry.
  rewrite Heq, Hry in Hrx. unfold neg_zero, pos_zero in *.
  destruct x as [[]| | |], y as [[]| | |]; simpl in Hrx; congruence.
Qed.

End ClockIds.

(** X15: rows added at different clock readings get different ids: the
    texts of two different time values (integers below 2^53 in size)
    differ, so [addItem] draws an id already drawn only when the clock
    reads what it read then; and it draws the id 1 of the default row only
    when the clock reads 1. *)
Theorem X15_different_readings_different_ids (t t' : Z) :
  - 2 ^ 53 < t < 2 ^ 53 -> - 2 ^ 53 < t' < 2 ^ 53 ->
  (Number_toString (Date_now t) = Number_toString (Date_now t') <-> t = t')
  /\ (Number_toString (Date_now t) = "1"%string <-> t = 1)
  /\ (t <> t' -> NoDup (ids (addItem t' (addItem t [])))).
Proof.
  intros Ht Ht'.
  assert (Hinj : forall u u', - 2 ^ 53 < u < 2 ^ 53 ->
                   - 2 ^ 53 < u' < 2 ^ 53 ->
                   Number_toString (Date_now u) = Number_toString (Date_now u')
                   -> u = u').
  { intros u u' Hu Hu' Heq. unfold Date_now in Heq.
    destruct (of_Z_valid u Hu) as (Hv & _ & Hz).
    destruct (of_Z_valid u' Hu') as (Hv' & _ & Hz').
    apply of_Z_inj; [done|done|]. by apply Number_toString_inj. }
  split; [|split].
  - split; [by apply Hinj|by intros ->].
  - change "1"%string with (Number_toString (Date_now 1)).
    split; [apply Hinj; [done|lia]|by intros ->].
  - intros Hne. rewrite !ids_addItem. simpl.
    apply NoDup_cons. split; [|apply NoDup_singleton].
    intros Hin. apply list_elem_of_singleton in Hin.
    apply Hne. by apply Hinj.
Qed.

Lemma X15_different_readings_different_ids_witness :
  NoDup (ids (addItem 1700000000001 (addItem 1700000000000 []))).
Proof.
  destruct (X15_different_readings_different_ids 1700000000000
              1700000000001) as (_ & _ & Hnd).
  - split; vm_compute; reflexivity.
  - split; vm_compute; reflexivity.
  - apply Hnd. discriminate.
Defined.
(** ** The amounts shown *)

Section Amounts.

Lemma digits_value_zeros_prefix j ds :
  0 <= j -> digits_value 0 (zeros j ++ ds) = digits_value 0 ds.
Proof.
  intros Hj. rewrite digits_value_app, digits_value_zeros by done.
  by rewrite Z.mul_0_l.
Qed.

(** A digit sequence of three digits or more splits into what comes
    before the last two and the last two. *)
Lemma split_last_two (ds : list ascii) :
  (3 <= length ds)%nat ->
  exists ip d1 d2,
    take (length ds - 2) ds = ip /\ drop (length ds - 2) ds = [d1; d2]
    /\ ds = ip ++ [d1; d2] /\ ip <> [].
Proof.
  intros Hlen.
  pose proof (take_drop (length ds - 2) ds) as Hsplit.
  assert (Hl : length (drop (length ds - 2) ds) = 2%nat)
    by (rewrite length_drop; lia).
  destruct (drop (length ds - 2) ds) as [|d1 [|d2 [|d3 tl]]] eqn:Ed;
    try (simpl in Hl; lia).
  exists (take (length ds - 2) ds), d1, d2. repeat split; try done.
  intros Hnil. apply (f_equal length) in Hnil.
  rewrite length_take in Hnil. simpl in Hnil. lia.
Qed.

End Amounts.

(** X16: an amount that is finite and below 10^21 in size is shown with
    exactly two decimals, and they are its nearest cents: [toFixed(2)]
    gives a minus sign when the number has one, one digit or more, a
    point and two digits, and the integer these digits spell is the
    nearest one to a hundred times the size of the number, the larger one
    on a tie. *)
Theorem X16_amounts_show_nearest_cents (x : number) :
  is_finite x = true -> fixed_notation x = true ->
  exists ip d1 d2,
    toFixed x 2
    = string_of_list_ascii ((if has_minus x then ["-"%char] else [])
                            ++ ip ++ "."%char :: [d1; d2])
    /\ ip <> [] /\ digits_only (ip ++ [d1; d2])
    /\ let cents := digits_value 0 (ip ++ [d1; d2]) in
       let '(a, b) := magnitude x in
       - b < 2 * (cents * b - 100 * a) <= b.
Proof.
  intros Hfin Hfix. destruct x as [s| | |s m e]; try done.
  - exists ["0"%char], "0"%char, "0"%char. split; [done|].
    split; [done|]. split; [by repeat constructor|].
    vm_compute. split; [reflexivity|intros H; discriminate H].
  - unfold fixed_notation in Hfix. apply Z.ltb_lt in Hfix.
    unfold toFixed. simpl magnitude. simpl has_minus.
    set (a := exact_num m e) in *. set (b := exact_den e) in *.
    assert (Ha : 0 < a) by apply exact_num_pos.
    assert (Hb : 0 < b) by apply exact_den_pos.
    destruct (10 ^ 21 * b <=? a) eqn:Ebig; [apply Z.leb_le in Ebig; lia|].
    set (n := (2 * a * 10 ^ 2 + b) / (2 * b)).
    assert (Hn : 0 <= n) by (apply Z.div_pos; lia).
    assert (Hdiv : 2 * b * n <= 2 * a * 10 ^ 2 + b < 2 * b * (n + 1)).
    { pose proof (Z.div_mod (2 * a * 10 ^ 2 + b) (2 * b) ltac:(lia)) as Hdm.
      pose proof (Z.mod_pos_bound (2 * a * 10 ^ 2 + b) (2 * b) ltac:(lia)).
      fold n in Hdm. lia. }
    set (ds := zeros (2 + 1 - Z.of_nat (length (to_digits n)))
               ++ to_digits n).
    assert (Hlen : (3 <= length ds)%nat).
    { subst ds. rewrite length_app. unfold zeros. rewrite repeat_length.
      lia. }
    destruct (split_last_two ds Hlen) as (ip & d1 & d2 & Htake & Hdrop
                                          & Hds & Hne).
    exists ip, d1, d2.
    change (2 =? 0) with false. cbv iota.
    change (Z.to_nat 2) with 2%nat. rewrite Htake, Hdrop.
    split; [done|]. split; [done|]. rewrite <- Hds.
    split.
    + subst ds. apply Forall_app.
      split; [apply zeros_digits|by apply to_digits_digits].
    + subst ds. cbv zeta.
      destruct (Z_le_gt_dec 0 (2 + 1 - Z.of_nat (length (to_digits n))))
        as [Hpad|Hpad].
      * rewrite digits_value_zeros_prefix, to_digits_value by done.
        change (10 ^ 2) with 100 in Hdiv. lia.
      * unfold zeros. rewrite Z2Nat.nonpos by lia. simpl.
        rewrite to_digits_value by done.
        change (10 ^ 2) with 100 in Hdiv. lia.
Qed.

Lemma X16_amounts_show_nearest_cents_witness :
  exists ip d1 d2,
    toFixed (of_decimal false 315 (-1)) 2
    = string_of_list_ascii
        ((if has_minus (of_decimal false 315 (-1)) then ["-"%char] else [])
         ++ ip ++ "."%char :: [d1; d2])
    /\ ip <> [] /\ digits_only (ip ++ [d1; d2])
    /\ let cents := digits_value 0 (ip ++ [d1; d2]) in
       let '(a, b) := magnitude (of_decimal false 315 (-1)) in
       - b < 2 * (cents * b - 100 * a) <= b.
Proof.
  apply (X16_amounts_show_nearest_cents (of_decimal false 315 (-1))).
  - reflexivity.
  - vm_compute. reflexivity.
Defined.

(** X17: adding a row changes no amount of the totals block: the new row
    has the line total 0, the subtotal stays what it was (a subtotal [-0]
    apart, which becomes [0]) and the two amounts read as before. *)
Theorem X17_addItem_keeps_totals (rows : list InvoiceItem) (t : Z) :
  render_totals (addItem t rows) = render_totals rows
  /\ (subtotal rows <> neg_zero ->
      subtotal (addItem t rows) = subtotal rows).
Proof.
  assert (Hsub : subtotal (addItem t rows) = add (subtotal rows) pos_zero).
  { unfold addItem. by rewrite subtotal_snoc. }
  split.
  - unfold render_totals. rewrite Hsub.
    by destruct (subtotal rows) as [[]|[]| |].
  - intros Hnz. rewrite Hsub.
    by destruct (subtotal rows) as [[]|[]| |].
Qed.

Lemma X17_addItem_keeps_totals_witness :
  subtotal (addItem 1700000000000 [blank_item "1"])
  = subtotal [blank_item "1"].
Proof.
  destruct (X17_addItem_keeps_totals [blank_item "1"] 1700000000000)
    as [_ Hsub].
  apply Hsub. vm_compute. discriminate.
Defined.
(** ** Whole quantities *)

Section WholeQuantities.

Lemma span_all (p : ascii -> bool) (s : list ascii) :
  Forall (fun c => p c = true) (fst (span p s)).
Proof.
  induction s as [|c s IH]; simpl; [constructor|].
  destruct (p c) eqn:E; [|constructor].
  destruct (span p s) as [a b]. simpl in *. by constructor.
Qed.

Lemma digits_value_nonneg acc ds :
  0 <= acc -> digits_only ds -> 0 <= digits_value acc ds.
Proof.
  intros Hacc Hds. revert acc Hacc.
  induction Hds as [|c ds Hc _ IH]; intros acc Hacc; [done|].
  apply IH. pose proof (is_digit_val c Hc). lia.
Qed.

Lemma hex_val_nonneg c : 0 <= default 0 (hex_val c).
Proof.
  unfold hex_val. set (n := Z.of_nat (nat_of_ascii c)).
  destruct ((48 <=? n) && (n <=? 57)) eqn:E1.
  { apply andb_prop in E1 as [E1 _]. apply Z.leb_le in E1. simpl. lia. }
  destruct ((97 <=? n) && (n <=? 102)) eqn:E2.
  { apply andb_prop in E2 as [E2 _]. apply Z.leb_le in E2. simpl. lia. }
  destruct ((65 <=? n) && (n <=? 70)) eqn:E3; [|done].
  apply andb_prop in E3 as [E3 _]. apply Z.leb_le in E3. simpl. lia.
Qed.

Lemma hex_value_nonneg ds : 0 <= hex_value ds.
Proof.
  unfold hex_value.
  assert (H : forall acc, 0 <= acc ->
            0 <= fold_left (fun a c => 16 * a + default 0 (hex_val c)) ds acc).
  { induction ds as [|c ds IH]; intros acc Hacc; [done|].
    simpl. apply IH. pose proof (hex_val_nonneg c). lia. }
  apply H. lia.
Qed.

(** The Number value of a positive integer is a whole number or an
    infinity. *)
Lemma round_ratio_int_whole sign a :
  0 < a ->
  is_integer (round_ratio sign a 1) = true
  \/ is_infinite (round_ratio sign a 1) = true.
Proof.
  intros Ha. destruct (Z_lt_ge_dec a (2 ^ 53)) as [Hsmall|Hbig].
  - left. destruct a as [|p|p]; try lia.
    destruct (of_Z_pos_exact p Hsmall) as (m & Hm & _ & Hround).
    rewrite round_ratio_sign, Hround. cbv beta iota; cbn [is_integer].
    pose proof (Z.log2_nonneg (Zpos p)).
    assert (Hl52 : Z.log2 (Zpos p) <= 52).
    { pose proof (Z.log2_spec (Zpos p) ltac:(lia)) as [Hlo _].
      destruct (Z_le_gt_dec (Z.log2 (Zpos p)) 52) as [|Hgt]; [done|].
      assert (2 ^ 53 <= 2 ^ Z.log2 (Zpos p))
        by (apply Z.pow_le_mono_r; lia). lia. }
    apply orb_true_iff. right. apply Z.eqb_eq. rewrite Hm.
    replace (- (Z.log2 (Zpos p) - 52)) with (52 - Z.log2 (Zpos p)) by lia.
    apply Z.mod_mul.
    assert (0 < 2 ^ (52 - Z.log2 (Z.pos p)))
      by (apply Z.pow_pos_nonneg; lia). lia.
  - pose proof (Z.log2_spec a Ha) as [Hlo Hhi].
    assert (Hl : 53 <= Z.log2 a).
    { destruct (Z_le_gt_dec 53 (Z.log2 a)) as [|Hlt]; [done|].
      assert (2 ^ Z.succ (Z.log2 a) <= 2 ^ 53)
        by (apply Z.pow_le_mono_r; lia). lia. }
    assert (HL : ilog2_ratio a 1 = Z.log2 a).
    { unfold ilog2_ratio. change (Z.log2 1) with 0.
      rewrite Z.sub_0_r. unfold scaled_den, scaled_num.
      rewrite (pow2_nonneg (Z.log2 a)), (pow2_nonpos (- Z.log2 a)) by lia.
      destruct (_ <=? _) eqn:E; [done|]. apply Z.leb_gt in E. lia. }
    unfold round_ratio. rewrite HL.
    replace (Z.max (Z.log2 a - 52) (-1074)) with (Z.log2 a - 52) by lia.
    set (E := Z.log2 a - 52).
    destruct (_ =? 2 ^ 53).
    + change (2 ^ 52) with 4503599627370496.
      destruct (E + 1 <=? 971); [left|by right]. simpl.
      apply orb_true_iff. left. apply Z.leb_le. lia.
    + destruct (round_half_even _ _); [by left| |by left].
      destruct (E <=? 971); [left|by right]. simpl.
      apply orb_true_iff. left. apply Z.leb_le. lia.
Qed.

(** [parseInt] gives NaN, a zero, a whole number or an infinity. *)
Lemma parseInt_whole s :
  parseInt_chars s = NaN
  \/ is_integer (parseInt_chars s) = true
  \/ is_infinite (parseInt_chars s) = true.
Proof.
  unfold parseInt_chars.
  destruct (take_sign (trim_start s)) as [neg str].
  destruct (starts_with _ _ || starts_with _ _).
  - pose proof (hex_value_nonneg (fst (span is_hex (drop 2 str)))) as Hv.
    destruct (span is_hex (drop 2 str)) as [zs rest]. simpl in Hv.
    destruct zs as [|z zs]; [by left|]. right.
    destruct (_ =? 0) eqn:E0; [by left|]. apply Z.eqb_neq in E0.
    apply round_ratio_int_whole. lia.
  - pose proof (span_all is_digit str) as Hds.
    destruct (span is_digit str) as [zs rest]. simpl in Hds.
    pose proof (digits_value_nonneg 0 zs ltac:(lia) Hds) as Hv.
    destruct zs as [|z zs]; [by left|]. right.
    destruct (_ =? 0) eqn:E0; [by left|]. apply Z.eqb_neq in E0.
    apply round_ratio_int_whole. lia.
Qed.

End WholeQuantities.

(** X18: whatever the text, the quantity input stores a whole number or
    an infinity, never a fraction: [parseInt] reads an integer, and NaN
    and 0 become 1. *)
Theorem X18_quantity_is_whole (item : InvoiceItem) (text : string)
    (rows : list InvoiceItem) (i : nat) (row : InvoiceItem) :
  rows !! i = Some row -> id row = id item ->
  exists q,
    quantity <$> onQuantityChange item text rows !! i = Some q
    /\ (is_integer q = true \/ is_infinite q = true)
    /\ is_zero q = false.
Proof.
  intros Hi Hid. unfold onQuantityChange.
  rewrite lookup_updateItem, Hi. simpl. rewrite Hid, String.eqb_refl.
  simpl. eexists. split; [done|]. unfold or_else, parseInt.
  destruct (parseInt_whole (list_ascii_of_string text)) as [H|H].
  - rewrite H. split; [by left|done].
  - destruct (parseInt_chars (list_ascii_of_string text)) as [s|s| |s m e];
      cbn [truthy is_zero negb andb]; cbv iota.
    + split; [by left|done].
    + split; [by right|done].
    + split; [by left|done].
    + split; [exact H|done].
Qed.

Lemma X18_quantity_is_whole_witness :
  exists q,
    quantity <$> onQuantityChange (blank_item "1") "2.75" [blank_item "1"]
                 !! 0%nat = Some q
    /\ (is_integer q = true \/ is_infinite q = true)
    /\ is_zero q = false.
Proof.
  apply (X18_quantity_is_whole (blank_item "1") "2.75" [blank_item "1"]
           0%nat (blank_item "1")); reflexivity.
Defined.

(** X19: [removeItem] on two rows or more takes out every row that
    carries the id and no other: the rows of the other ids are left as
    they are, each as many times as it was there and in the order they
    had, so that the list is shorter by the number of rows that carried
    the id. So a row whose remove button is enabled (the list not being of
    one row) is gone after the click. *)
Theorem X19_removeItem_takes_rows_of_the_id (rows : list InvoiceItem)
    (id0 : string) :
  (1 < length rows)%nat ->
  (forall keep : InvoiceItem -> bool,
     (forall row, keep row = true -> id row <> id0) ->
     List.filter keep (removeItem id0 rows) = List.filter keep rows)
  /\ (id0 ∉ ids (removeItem id0 rows))
  /\ sublist (removeItem id0 rows) rows
  /\ (length (removeItem id0 rows)
      + length (List.filter (fun row => String.eqb (id row) id0) rows)
      = length rows)%nat
  /\ remove_disabled rows = false.
Proof.
  intros Hlen. unfold removeItem.
  assert (Hl : (1 <? length rows)%nat = true) by (by apply Nat.ltb_lt).
  rewrite Hl. split; [|split; [|split; [|split]]].
  - intros keep Hkeep. clear Hl Hlen.
    induction rows as [|row rows IH]; simpl; [done|].
    destruct (String.eqb_spec (id row) id0) as [Heq|Hne]; simpl.
    + destruct (keep row) eqn:Ek; [by apply Hkeep in Ek|exact IH].
    + by rewrite IH.
  - intros Hid. apply list_elem_of_fmap in Hid as (row & Heq & Hrow).
    apply list_elem_of_In, List.filter_In in Hrow as [_ Hrow].
    apply negb_true_iff, String.eqb_neq in Hrow. done.
  - clear. induction rows as [|row rows IH]; simpl; [done|].
    destruct (negb _); [by apply sublist_skip|by apply sublist_cons].
  - clear. induction rows as [|row rows IH]; simpl; [done|].
    destruct (String.eqb (id row) id0); simpl; lia.
  - unfold remove_disabled. apply Nat.eqb_neq. lia.
Qed.

Lemma X19_removeItem_takes_rows_of_the_id_witness :
  List.filter (fun row => String.eqb (id row) "9")
    (removeItem "2" [blank_item "2"; blank_item "9"; blank_item "2";
                     blank_item "9"])
  = [blank_item "9"; blank_item "9"].
Proof.
  destruct (X19_removeItem_takes_rows_of_the_id
              [blank_item "2"; blank_item "9"; blank_item "2";
               blank_item "9"] "2")
    as (Hkeep & _).
  - simpl. lia.
  - rewrite Hkeep; [reflexivity|].
    intros row Hrow. apply String.eqb_eq in Hrow. rewrite Hrow. discriminate.
Defined.
